(** * K League Ignobel awards: the statistics pipeline

    A shallow embedding of the batch pipeline

      raw events -> preprocess_events -> aggregate_player_stats /
      calculate_clearance_panic / calculate_second_half_drop ->
      calculate_metrics -> compute_award_scores

    together with the zone binner [add_zone_columns].

    Conventions of the embedding.
    - A DataFrame is a list of rows; a row is a record (event tables) or a
      key with named cells (aggregate tables).
    - A float column is a column of rationals [Q]; the three non-finite
      floats are modelled where the code can meet them (see [Frame]).
      Rounding is not modelled: every comparison the code performs is
      modelled on the exact value.
    - Identifier and text columns of the event log are never null. *)

From Stdlib Require Import List ZArith QArith Qabs Bool String Ascii Lia Lqa.
From Stdlib Require Import Permutation DecimalString.
Import ListNotations.

Local Open Scope string_scope.
Local Open Scope list_scope.
Local Open Scope Z_scope.

(* ================================================================== *)
(** * Generic list facts *)
(* ================================================================== *)

Section ListFacts.
Context {A : Type}.

(** Number of elements of a list satisfying a boolean predicate
    (a boolean mask followed by [sum]). *)
Definition count (p : A -> bool) (l : list A) : nat :=
  List.length (filter p l).

Lemma count_nil p : count p [] = 0%nat.
Proof. reflexivity. Qed.

Lemma count_cons p x l :
  count p (x :: l) = ((if p x then 1 else 0) + count p l)%nat.
Proof. unfold count; simpl; destruct (p x); reflexivity. Qed.

Lemma count_app p l1 l2 :
  count p (l1 ++ l2) = (count p l1 + count p l2)%nat.
Proof. unfold count. rewrite filter_app, length_app. reflexivity. Qed.

Lemma count_le_length p l : (count p l <= List.length l)%nat.
Proof.
  induction l as [|x l IH]; [apply Nat.le_refl|].
  rewrite count_cons; simpl; destruct (p x); lia.
Qed.

Lemma count_ext p q l :
  (forall x, In x l -> p x = q x) -> count p l = count q l.
Proof.
  induction l as [|x l IH]; intros E; [reflexivity|].
  rewrite !count_cons, (E x (or_introl eq_refl)), IH; [reflexivity|].
  intros y Hy; apply E; right; exact Hy.
Qed.

Lemma count_perm p l1 l2 :
  Permutation l1 l2 -> count p l1 = count p l2.
Proof.
  induction 1 as [|x l1 l2 _ IH|x y l|l1 l2 l3 _ IH1 _ IH2].
  - reflexivity.
  - rewrite !count_cons, IH; reflexivity.
  - rewrite !count_cons; lia.
  - congruence.
Qed.

Lemma count_pos_iff p l :
  (0 < count p l)%nat <-> exists x, In x l /\ p x = true.
Proof.
  unfold count; split.
  - destruct (filter p l) as [|x r] eqn:E; simpl; [lia|].
    intros _; exists x.
    apply filter_In; rewrite E; left; reflexivity.
  - intros [x Hx]; apply filter_In in Hx.
    destruct (filter p l); [destruct Hx | simpl; lia].
Qed.

Lemma count_zero_iff p l :
  count p l = 0%nat <-> forall x, In x l -> p x = false.
Proof.
  split.
  - intros E x Hx; destruct (p x) eqn:Px; [|reflexivity].
    assert (0 < count p l)%nat by (apply count_pos_iff; eauto); lia.
  - intros H; destruct (count p l) eqn:E; [reflexivity|].
    assert (P : (0 < count p l)%nat) by lia.
    apply count_pos_iff in P; destruct P as [x [Hx Px]].
    rewrite (H x Hx) in Px; discriminate.
Qed.

Lemma filter_filter p q (l : list A) :
  filter p (filter q l) = filter (fun x => q x && p x) l.
Proof.
  induction l as [|x l IH]; [reflexivity|]; simpl.
  destruct (q x); simpl; [destruct (p x)|]; rewrite ?IH; reflexivity.
Qed.
End ListFacts.

Definition is_some {A} (o : option A) : bool :=
  match o with Some _ => true | None => false end.

Lemma existsb_perm {A} (p : A -> bool) l1 l2 :
  Permutation l1 l2 -> existsb p l1 = existsb p l2.
Proof.
  intros P. apply eq_true_iff_eq. rewrite !existsb_exists.
  split; intros [x [Hx Px]]; exists x; split; auto.
  - eapply Permutation_in; eauto.
  - eapply Permutation_in; [apply Permutation_sym|]; eauto.
Qed.

Lemma existsb_filter {A} (p q : A -> bool) l :
  existsb p (filter q l) = existsb (fun x => q x && p x) l.
Proof.
  induction l as [|x l IH]; simpl; [reflexivity|].
  destruct (q x); simpl; rewrite IH; reflexivity.
Qed.

Lemma existsb_pointwise {A} (p q : A -> bool) l :
  (forall x, p x = q x) -> existsb p l = existsb q l.
Proof.
  intros E. induction l as [|x l IH]; simpl; [reflexivity|].
  rewrite E, IH. reflexivity.
Qed.

Lemma find_is_some {A} (p : A -> bool) l :
  is_some (find p l) = existsb p l.
Proof.
  induction l as [|x l IH]; simpl; [reflexivity|].
  destruct (p x); simpl; auto.
Qed.

Lemma count_flat_map {A B} (p : B -> bool) (f : A -> list B) l :
  count p (flat_map f l) = list_sum (map (fun x => count p (f x)) l).
Proof.
  induction l as [|x l IH]; [reflexivity|].
  simpl. rewrite count_app, IH. reflexivity.
Qed.

Lemma count_map {A B} (f : A -> B) (p : B -> bool) l :
  count p (map f l) = count (fun x => p (f x)) l.
Proof.
  induction l as [|x l IH]; [reflexivity|].
  simpl map. rewrite !count_cons, IH. reflexivity.
Qed.

Lemma count_filter {A} (p q : A -> bool) l :
  count p (filter q l) = count (fun x => q x && p x) l.
Proof. unfold count. rewrite filter_filter. reflexivity. Qed.

Lemma count_mono {A} (p q : A -> bool) l :
  (forall x, In x l -> p x = true -> q x = true) ->
  (count p l <= count q l)%nat.
Proof.
  induction l as [|x l IH]; intros H; [apply Nat.le_refl|].
  rewrite !count_cons.
  assert (IH' : (count p l <= count q l)%nat)
    by (apply IH; intros; apply H; [right|]; assumption).
  destruct (p x) eqn:Px; [rewrite (H x (or_introl eq_refl) Px)|];
    destruct (q x); lia.
Qed.

Lemma count_lt_length {A} (p : A -> bool) l x :
  In x l -> p x = false -> (count p l < List.length l)%nat.
Proof.
  induction l as [|y l IH]; intros H Px; [destruct H|].
  rewrite count_cons. simpl List.length.
  pose proof (count_le_length p l) as L.
  destruct H as [->|H].
  - rewrite Px. lia.
  - specialize (IH H Px). destruct (p y); lia.
Qed.

(* ================================================================== *)
(** * Stable sorting ([DataFrame.sort_values]) *)
(* ================================================================== *)

(** [sort_values] on several columns is a stable sort (pandas uses a
    lexsort indexer); on one column the model keeps the order of ties as
    well.  A stable sort is determined by its order, and is modelled by
    insertion sort. *)
Section StableSort.
Context {A : Type}.
Variable leb : A -> A -> bool.
Hypothesis leb_total : forall a b, leb a b = false -> leb b a = true.

Fixpoint insert (x : A) (l : list A) : list A :=
  match l with
  | [] => [x]
  | y :: r => if leb x y then x :: l else y :: insert x r
  end.

Fixpoint isort (l : list A) : list A :=
  match l with
  | [] => []
  | x :: r => insert x (isort r)
  end.

(** Adjacent elements are in order. *)
Fixpoint ordered (l : list A) : Prop :=
  match l with
  | [] => True
  | x :: r => match r with
              | [] => True
              | y :: _ => leb x y = true
              end /\ ordered r
  end.

Lemma insert_perm x l : Permutation (x :: l) (insert x l).
Proof.
  induction l as [|y r IH]; simpl; [apply Permutation_refl|].
  destruct (leb x y); [apply Permutation_refl|].
  eapply perm_trans; [apply perm_swap|]. apply perm_skip, IH.
Qed.

Lemma isort_perm l : Permutation l (isort l).
Proof.
  induction l as [|x r IH]; simpl; [constructor|].
  eapply perm_trans; [apply perm_skip, IH | apply insert_perm].
Qed.

Lemma insert_ordered x l : ordered l -> ordered (insert x l).
Proof using leb_total.
  induction l as [|y r IH]; simpl; [auto|].
  intros [Hy Hr]. destruct (leb x y) eqn:E.
  - simpl. auto.
  - specialize (IH Hr). split; [|exact IH].
    destruct r as [|z r']; simpl in *.
    + apply leb_total, E.
    + destruct (leb x z); [apply leb_total, E | exact Hy].
Qed.

Lemma isort_ordered l : ordered (isort l).
Proof using leb_total.
  induction l as [|x r IH]; simpl; [exact I | apply insert_ordered, IH].
Qed.

(** Sorting a table that is already in order leaves it as it is. *)
Lemma isort_of_ordered l : ordered l -> isort l = l.
Proof.
  induction l as [|x r IH]; [reflexivity|].
  intros [Hx Hr]. simpl. rewrite (IH Hr).
  destruct r as [|y r']; [reflexivity|].
  simpl. rewrite Hx. reflexivity.
Qed.

Lemma isort_idempotent l : isort (isort l) = isort l.
Proof using leb_total. apply isort_of_ordered, isort_ordered. Qed.
End StableSort.

(* ================================================================== *)
(** * Data model: the event log *)
(* ================================================================== *)

(** One row of the raw event log (the columns the pipeline reads). *)
Record RawEvent := mkRaw {
  game_id : Z;
  period_id : Z;
  time_seconds : Q;
  action_id : Z;
  player_id : Z;
  player_name_ko : string;
  team_id : Z;
  team_name_ko : string;
  type_name : string;
  result_name : string;
  start_x : Q;
  start_y : Q
}.

(** A preprocessed row: the source columns and the four derived flags. *)
Record Event := mkEvent {
  raw :> RawEvent;
  is_success : bool;
  is_fail : bool;
  is_card : bool;
  in_def_third : bool
}.

(** config.py.  aggregate.py and awards_engine.py import the module
    [config] of their own package; its text is the one of the config.py
    of the repository. *)
Module Config.
Definition DEF_ACTIONS : list string :=
  ["Tackle"; "Duel"; "Foul"; "Interception"; "Block"; "Clearance";
   "Intervention"; "Error"; "Aerial Clearance"].
Definition CARD_SET : list string :=
  ["Yellow_Card"; "Second_Yellow_Card"; "Direct_Red_Card"].
Definition FOUL_TYPES : list string := ["Foul"; "Handball_Foul"; "Hit"].
End Config.

(** [Series.isin] on a text column. *)
Definition isin (s : string) (l : list string) : bool :=
  existsb (String.eqb s) l.

(* ================================================================== *)
(** * preprocess.py *)
(* ================================================================== *)

Module Preprocess.

(** Any table that carries the source columns can be preprocessed: the
    raw log, or a table that already went through [preprocess_events]
    (its derived columns are then overwritten). *)
Class HasSource (A : Type) := source : A -> RawEvent.
#[export] Instance raw_has_source : HasSource RawEvent := fun r => r.
#[export] Instance event_has_source : HasSource Event := raw.

(** Lexicographic order on (game_id, period_id, time_seconds, action_id). *)
Definition key_compare (a b : RawEvent) : comparison :=
  match game_id a ?= game_id b with
  | Eq =>
      match period_id a ?= period_id b with
      | Eq =>
          match (time_seconds a ?= time_seconds b)%Q with
          | Eq => action_id a ?= action_id b
          | c => c
          end
      | c => c
      end
  | c => c
  end.

Definition key_leb (a b : RawEvent) : bool :=
  match key_compare a b with Gt => false | _ => true end.

Definition sort_values (df : list RawEvent) : list RawEvent :=
  isort key_leb df.

(** The four assignments of derived columns. *)
Definition derive (r : RawEvent) : Event :=
  {| raw := r;
     is_success := String.eqb (result_name r) "Successful";
     is_fail := String.eqb (result_name r) "Unsuccessful";
     is_card := isin (result_name r) Config.CARD_SET;
     in_def_third := Qle_bool (start_x r) 35 |}.

Definition preprocess_events {A} `{HasSource A} (df : list A) : list Event :=
  map derive (sort_values (map source df)).

Lemma key_compare_antisym a b :
  key_compare b a = CompOpp (key_compare a b).
Proof.
  unfold key_compare.
  rewrite (Z.compare_antisym (game_id a) (game_id b)).
  rewrite (Z.compare_antisym (period_id a) (period_id b)).
  rewrite <- (Qcompare_antisym (time_seconds a) (time_seconds b)).
  rewrite (Z.compare_antisym (action_id a) (action_id b)).
  destruct (game_id a ?= game_id b); simpl; try reflexivity.
  destruct (period_id a ?= period_id b); simpl; try reflexivity.
  destruct (time_seconds a ?= time_seconds b)%Q; simpl; reflexivity.
Qed.

Lemma key_leb_total a b : key_leb a b = false -> key_leb b a = true.
Proof.
  unfold key_leb. rewrite (key_compare_antisym a b).
  destruct (key_compare a b); simpl; congruence.
Qed.

Lemma source_derive l : map source (map derive l) = l.
Proof.
  rewrite map_map. unfold source, event_has_source; simpl.
  apply map_id.
Qed.

(** The derived columns are functions of the source columns alone. *)
Lemma derived_columns {A} `{HasSource A} (df : list A) e :
  In e (preprocess_events df) ->
  is_success e = String.eqb (result_name e) "Successful" /\
  is_fail e = String.eqb (result_name e) "Unsuccessful" /\
  is_card e = isin (result_name e) Config.CARD_SET /\
  in_def_third e = Qle_bool (start_x e) 35.
Proof.
  unfold preprocess_events. intros He.
  apply in_map_iff in He. destruct He as [r [<- _]].
  simpl. auto.
Qed.

(** C8.  Preprocessing a preprocessed table gives the same table again,
    row for row, hence the same values of is_success, is_fail, is_card
    and in_def_third; and each application keeps every input row exactly
    as often as it occurs in the input (nothing dropped, nothing
    deduplicated). *)
Theorem preprocess_events_idempotent :
  forall (A : Type) (HA : HasSource A) (df : list A),
    preprocess_events (preprocess_events df) = preprocess_events df /\
    Permutation (map source df) (map source (preprocess_events df)) /\
    Permutation (map source df)
                (map source (preprocess_events (preprocess_events df))) /\
    List.length (preprocess_events df) = List.length df /\
    List.length (preprocess_events (preprocess_events df)) = List.length df.
Proof.
  intros A HA df.
  assert (E : preprocess_events (preprocess_events df) = preprocess_events df).
  { unfold preprocess_events.
    rewrite source_derive. unfold sort_values.
    rewrite (isort_idempotent key_leb key_leb_total). reflexivity. }
  assert (P : Permutation (map source df) (map source (preprocess_events df))).
  { unfold preprocess_events. rewrite source_derive.
    apply isort_perm. }
  rewrite E. repeat split; try exact P.
  - apply Permutation_length in P. rewrite !length_map in P. auto.
  - apply Permutation_length in P. rewrite !length_map in P. auto.
Qed.

End Preprocess.

(* ================================================================== *)
(** * feature_engineering.py: the zone binner *)
(* ================================================================== *)

Module Zones.
Local Open Scope Q_scope.

(** [Index.searchsorted] on increasing bin edges: the position at which
    [x] would be inserted, after ([side="right"]) or before
    ([side="left"]) the edges equal to it. *)
Fixpoint searchsorted_right (bins : list Q) (x : Q) : nat :=
  match bins with
  | [] => 0
  | b :: r => if Qle_bool b x then S (searchsorted_right r x) else 0
  end.

Fixpoint searchsorted_left (bins : list Q) (x : Q) : nat :=
  match bins with
  | [] => 0
  | b :: r => if Qle_bool x b then 0 else S (searchsorted_left r x)
  end.

(** [pd.cut] of one value with explicit edges and labels: [None] is the
    missing category. *)
Definition cut (x : Q) (bins : list Q) (labels : list string)
           (include_lowest right : bool) : option string :=
  let ids := if right then searchsorted_left bins x
             else searchsorted_right bins x in
  let ids := match bins with
             | b0 :: _ => if include_lowest && Qeq_bool x b0 then 1%nat
                          else ids
             | [] => ids
             end in
  if (ids =? List.length bins)%nat || (ids =? 0)%nat then None
  else nth_error labels (ids - 1).

(** [.astype(str)] of a categorical cell. *)
Definition astype_str (c : option string) : string :=
  match c with Some s => s | None => "nan" end.

Definition default_x_bins : list Q := [0; 26.25; 52.5; 78.75; 105].
Definition default_y_bins : list Q := [0; 22.67; 45.33; 68].

Definition string_of_nat (n : nat) : string :=
  NilZero.string_of_uint (Nat.to_uint n).

Definition numbered (prefix : string) (n : nat) : list string :=
  map (fun i => String.append prefix (string_of_nat i)) (seq 0 n).

Definition x_labels_for (x_bins : list Q) : list string :=
  let x_labels := ["D"; "DM"; "AM"; "A"] in
  if (List.length x_bins - 1 =? List.length x_labels)%nat then x_labels
  else numbered "X" (List.length x_bins - 1).

Definition y_labels_for (y_bins : list Q) : list string :=
  let y_labels := ["L"; "C"; "R"] in
  if (List.length y_bins - 1 =? List.length y_labels)%nat then y_labels
  else numbered "Y" (List.length y_bins - 1).

Record Zoned (A : Type) := mkZoned {
  z_row : A;
  zone_x : string;
  zone_y : string;
  zone : string
}.
Arguments mkZoned {A}.
Arguments z_row {A}.
Arguments zone_x {A}.
Arguments zone_y {A}.
Arguments zone {A}.

Definition zone_of (x_bins y_bins : list Q) (x y : Q) : string * string * string :=
  let zx := astype_str (cut x x_bins (x_labels_for x_bins) true false) in
  let zy := astype_str (cut y y_bins (y_labels_for y_bins) true false) in
  (zx, zy, String.append zx (String.append "-" zy)).

(** [add_zone_columns]; [x_col] and [y_col] select the coordinate
    columns, [None] bins stand for the defaults. *)
Definition add_zone_columns {A} (events : list A)
           (x_bins y_bins : option (list Q)) (x_col y_col : A -> Q)
  : list (Zoned A) :=
  let x_bins := match x_bins with Some b => b | None => default_x_bins end in
  let y_bins := match y_bins with Some b => b | None => default_y_bins end in
  map (fun e =>
         let '(zx, zy, z) := zone_of x_bins y_bins (x_col e) (y_col e) in
         mkZoned e zx zy z) events.

(** Zone labels of one event under the default bins. *)
Definition default_zone (x y : Q) : string * string * string :=
  zone_of default_x_bins default_y_bins x y.

Definition zone_labels : list string :=
  ["D-L"; "D-C"; "D-R"; "DM-L"; "DM-C"; "DM-R";
   "AM-L"; "AM-C"; "AM-R"; "A-L"; "A-C"; "A-R"].

(** The band a coordinate falls in, read off the half-open intervals. *)
Definition x_band (x : Q) : string :=
  if Qle_bool 78.75 x then "A"
  else if Qle_bool 52.5 x then "AM"
  else if Qle_bool 26.25 x then "DM"
  else "D".

Definition y_band (y : Q) : string :=
  if Qle_bool 45.33 y then "R"
  else if Qle_bool 22.67 y then "C"
  else "L".

Ltac qcases :=
  repeat match goal with
    | |- context [Qle_bool ?a ?b] =>
        let E := fresh "E" in
        destruct (Qle_bool a b) eqn:E;
        [apply Qle_bool_iff in E
        | assert (~ a <= b) by (rewrite <- Qle_bool_iff; congruence); clear E]
    | |- context [Qeq_bool ?a ?b] =>
        let E := fresh "E" in
        destruct (Qeq_bool a b) eqn:E;
        [apply Qeq_bool_iff in E | apply Qeq_bool_neq in E]
    end.

Lemma cut_x_in_range x :
  0 <= x -> x < 105 ->
  cut x default_x_bins (x_labels_for default_x_bins) true false
  = Some (x_band x).
Proof.
  intros H0 H1. unfold cut, default_x_bins, x_labels_for, x_band.
  simpl. qcases; simpl; try reflexivity; exfalso; lra.
Qed.

Lemma cut_y_in_range y :
  0 <= y -> y < 68 ->
  cut y default_y_bins (y_labels_for default_y_bins) true false
  = Some (y_band y).
Proof.
  intros H0 H1. unfold cut, default_y_bins, y_labels_for, y_band.
  simpl. qcases; simpl; try reflexivity; exfalso; lra.
Qed.

Lemma x_band_cases x :
  (x_band x = "D" <-> x < 26.25) /\
  (x_band x = "DM" <-> 26.25 <= x /\ x < 52.5) /\
  (x_band x = "AM" <-> 52.5 <= x /\ x < 78.75) /\
  (x_band x = "A" <-> 78.75 <= x).
Proof.
  unfold x_band.
  qcases; repeat split; intros; try discriminate; try lra;
    exfalso; lra.
Qed.

Lemma y_band_cases y :
  (y_band y = "L" <-> y < 22.67) /\
  (y_band y = "C" <-> 22.67 <= y /\ y < 45.33) /\
  (y_band y = "R" <-> 45.33 <= y).
Proof.
  unfold y_band.
  qcases; repeat split; intros; try discriminate; try lra;
    exfalso; lra.
Qed.

Lemma band_in_labels x y :
  In (String.append (x_band x) (String.append "-" (y_band y))) zone_labels.
Proof.
  unfold x_band, y_band, zone_labels.
  destruct (Qle_bool 78.75 x), (Qle_bool 52.5 x), (Qle_bool 26.25 x),
    (Qle_bool 45.33 y), (Qle_bool 22.67 y); simpl; tauto.
Qed.

(** From the upper edge on, a coordinate falls in no band: with
    [right=False] the last interval is [78.75, 105) and [include_lowest]
    only concerns the first edge. *)
Lemma cut_x_upper x :
  105 <= x ->
  cut x default_x_bins (x_labels_for default_x_bins) true false = None.
Proof.
  intros H. unfold cut, default_x_bins, x_labels_for.
  simpl. qcases; simpl; try reflexivity; exfalso; lra.
Qed.

Lemma cut_y_upper y :
  68 <= y ->
  cut y default_y_bins (y_labels_for default_y_bins) true false = None.
Proof.
  intros H. unfold cut, default_y_bins, y_labels_for.
  simpl. qcases; simpl; try reflexivity; exfalso; lra.
Qed.

Lemma x_component_cases x :
  In (astype_str (cut x default_x_bins (x_labels_for default_x_bins)
                      true false))
     ["D"; "DM"; "AM"; "A"; "nan"].
Proof.
  unfold cut, default_x_bins, x_labels_for.
  simpl. qcases; simpl; tauto.
Qed.

Lemma y_component_cases y :
  In (astype_str (cut y default_y_bins (y_labels_for default_y_bins)
                      true false))
     ["L"; "C"; "R"; "nan"].
Proof.
  unfold cut, default_y_bins, y_labels_for.
  simpl. qcases; simpl; tauto.
Qed.

Lemma upper_edge_has_no_zone :
  default_zone 105 34 = ("nan", "C", "nan-C") /\
  default_zone 50 68 = ("DM", "nan", "DM-nan").
Proof. split; vm_compute; reflexivity. Qed.

(** The result of [add_zone_columns] with the default bins: the events,
    in order, each with the labels of its own coordinates. *)
Lemma add_zone_columns_rows {A} (events : list A) (x_col y_col : A -> Q) :
  map z_row (add_zone_columns events None None x_col y_col) = events /\
  forall r, In r (add_zone_columns events None None x_col y_col) ->
    (zone_x r, zone_y r, zone r)
    = default_zone (x_col (z_row r)) (y_col (z_row r)).
Proof.
  unfold add_zone_columns, default_zone, zone_of. split.
  - rewrite map_map. cbn [z_row]. apply map_id.
  - intros r H. apply in_map_iff in H. destruct H as [e [<- _]].
    reflexivity.
Qed.

(** A table with one event on the far goal line. *)
Definition goal_line_event : list (Q * Q) := [(105, 34)].

(** C2, as stated, fails: the closed range includes x = 105, and for an
    event there add_zone_columns gives the zone "nan-C", none of the
    twelve labels. *)
Lemma zone_binning_not_total_on_closed_pitch :
  ~ (forall (A : Type) (events : list A) (x_col y_col : A -> Q) r,
       In r (add_zone_columns events None None x_col y_col) ->
       0 <= x_col (z_row r) <= 105 -> 0 <= y_col (z_row r) <= 68 ->
       In (zone r) zone_labels).
Proof.
  intros H.
  specialize (H (Q * Q)%type goal_line_event fst snd
                (mkZoned (105, 34) "nan" "C" "nan-C")).
  assert (Hr : In (mkZoned (105, 34) "nan" "C" "nan-C")
                  (add_zone_columns goal_line_event None None fst snd))
    by (left; vm_compute; reflexivity).
  assert (Hx : 0 <= 105 <= 105) by (split; lra).
  assert (Hy : 0 <= 34 <= 68) by (split; lra).
  specialize (H Hr Hx Hy). cbn [zone] in H. unfold zone_labels in H.
  repeat (destruct H as [H|H]; [discriminate H|]). exact H.
Qed.

Lemma no_label_with_nan_x zy :
  In zy ["L"; "C"; "R"; "nan"] ->
  ~ In (String.append "nan" (String.append "-" zy)) zone_labels.
Proof.
  intros H. unfold zone_labels.
  repeat (destruct H as [<-|H];
          [intros X; cbn [String.append] in X;
           repeat (destruct X as [X|X]; [discriminate X|]); exact X|]).
  destruct H.
Qed.

Lemma no_label_with_nan_y zx :
  In zx ["D"; "DM"; "AM"; "A"; "nan"] ->
  ~ In (String.append zx (String.append "-" "nan")) zone_labels.
Proof.
  intros H. unfold zone_labels.
  repeat (destruct H as [<-|H];
          [intros X; cbn [String.append] in X;
           repeat (destruct X as [X|X]; [discriminate X|]); exact X|]).
  destruct H.
Qed.

(** C2, amended.  With the default bins add_zone_columns returns the
    events in order, one row each.  A row whose coordinates lie on the
    half-open pitch [0,105) x [0,68) has one of the twelve labels, namely
    band-of-x "-" band-of-y, where the band of a coordinate is fixed by
    the half-open intervals between consecutive edges (no gap, no
    overlap); x = 26.25 is "DM".  A row with x >= 105 or y >= 68, in
    particular on the upper edges of the pitch, has none of the twelve
    labels. *)
Theorem zone_binning_total_on_half_open_pitch :
  forall (A : Type) (events : list A) (x_col y_col : A -> Q),
    let out := add_zone_columns events None None x_col y_col in
    map z_row out = events /\
    forall r, In r out ->
      let x := x_col (z_row r) in
      let y := y_col (z_row r) in
      (0 <= x -> x < 105 -> 0 <= y -> y < 68 ->
       In (zone r) zone_labels /\
       zone r = String.append (zone_x r) (String.append "-" (zone_y r)) /\
       In (zone_x r) ["D"; "DM"; "AM"; "A"] /\
       In (zone_y r) ["L"; "C"; "R"] /\
       (zone_x r = "D" <-> 0 <= x < 26.25) /\
       (zone_x r = "DM" <-> 26.25 <= x < 52.5) /\
       (zone_x r = "AM" <-> 52.5 <= x < 78.75) /\
       (zone_x r = "A" <-> 78.75 <= x < 105) /\
       (zone_y r = "L" <-> 0 <= y < 22.67) /\
       (zone_y r = "C" <-> 22.67 <= y < 45.33) /\
       (zone_y r = "R" <-> 45.33 <= y < 68)) /\
      (x == 26.25 -> zone_x r = "DM") /\
      (105 <= x \/ 68 <= y -> ~ In (zone r) zone_labels).
Proof.
  intros A events x_col y_col out.
  destruct (add_zone_columns_rows events x_col y_col) as [M R].
  split; [exact M|]. intros r Hr x y. specialize (R r Hr).
  fold x y in R. unfold default_zone, zone_of in R.
  pose proof (f_equal (fun t : string * string * string => fst (fst t)) R)
    as Ex.
  pose proof (f_equal (fun t : string * string * string => snd (fst t)) R)
    as Ey.
  pose proof (f_equal (fun t : string * string * string => snd t) R) as Ez.
  cbn [fst snd] in Ex, Ey, Ez. clear R.
  split; [|split].
  - intros Hx0 Hx1 Hy0 Hy1.
    rewrite (cut_x_in_range x Hx0 Hx1) in Ex, Ez.
    rewrite (cut_y_in_range y Hy0 Hy1) in Ey, Ez.
    cbn [astype_str] in Ex, Ey, Ez. rewrite Ez, Ex, Ey.
    destruct (x_band_cases x) as [XD [XDM [XAM XA]]].
    destruct (y_band_cases y) as [YL [YC YR]].
    split; [apply band_in_labels|].
    split; [reflexivity|].
    split.
    { unfold x_band. destruct (Qle_bool 78.75 x), (Qle_bool 52.5 x),
        (Qle_bool 26.25 x); simpl; tauto. }
    split.
    { unfold y_band. destruct (Qle_bool 45.33 y), (Qle_bool 22.67 y);
        simpl; tauto. }
    rewrite XD, XDM, XAM, XA, YL, YC, YR.
    repeat split; intros; try tauto; try lra.
  - intros E.
    assert (Hx0 : 0 <= x) by lra. assert (Hx1 : x < 105) by lra.
    rewrite (cut_x_in_range x Hx0 Hx1) in Ex. cbn [astype_str] in Ex.
    rewrite Ex. apply (proj1 (proj2 (x_band_cases x))). lra.
  - intros [H|H]; rewrite Ez.
    + rewrite (cut_x_upper x H). cbn [astype_str].
      apply no_label_with_nan_x, y_component_cases.
    + rewrite (cut_y_upper y H). cbn [astype_str].
      apply no_label_with_nan_y, x_component_cases.
Qed.

(** One event on the boundary between the bands D and DM. *)
Definition boundary_event : list (Q * Q) := [(26.25, 34)].

Lemma zone_binning_total_on_half_open_pitch_witness :
  let out := add_zone_columns boundary_event None None fst snd in
  let r := mkZoned (26.25, 34) "DM" "C" "DM-C" in
  In r out /\
  (0 <= 26.25 /\ 26.25 < 105 /\ 0 <= 34 /\ 34 < 68) /\
  In (zone r) zone_labels /\ zone_x r = "DM" /\ zone_y r = "C".
Proof.
  intros out r.
  assert (Hr : In r out) by (left; vm_compute; reflexivity).
  assert (Hx0 : 0 <= 26.25) by lra. assert (Hx1 : 26.25 < 105) by lra.
  assert (Hy0 : 0 <= 34) by lra. assert (Hy1 : 34 < 68) by lra.
  split; [exact Hr|]. split; [repeat split; assumption|].
  destruct (proj2 (zone_binning_total_on_half_open_pitch
                     (Q * Q)%type boundary_event fst snd) r Hr)
    as [P _].
  destruct (P Hx0 Hx1 Hy0 Hy1) as [L _].
  split; [exact L|]. split; reflexivity.
Defined.

End Zones.

(* ================================================================== *)
(** * Frames: numeric cells and keyed tables *)
(* ================================================================== *)

Module Frame.
Local Open Scope Q_scope.

(** A float that is not NaN: finite, or one of the two infinities. *)
Inductive num := Fin (q : Q) | PInf | NInf.

(** A numeric cell; [None] is NaN (a missing value). *)
Definition cell := option num.

Definition nan : cell := None.
Definition of_Q (q : Q) : cell := Some (Fin q).
Definition of_Z (z : Z) : cell := Some (Fin (inject_Z z)).
Definition of_nat (n : nat) : cell := of_Z (Z.of_nat n).

(** The cell holds the number zero. *)
Definition is_zero (c : cell) : Prop :=
  match c with Some (Fin q) => q == 0 | _ => False end.

Definition fillna (v : num) (c : cell) : num :=
  match c with Some x => x | None => v end.

(** Total order of the non-NaN floats. *)
Definition num_leb (a b : num) : bool :=
  match a, b with
  | NInf, _ => true
  | _, PInf => true
  | Fin x, Fin y => Qle_bool x y
  | _, _ => false
  end.

Definition num_ltb (a b : num) : bool := negb (num_leb b a).
Definition num_eqb (a b : num) : bool := num_leb a b && num_leb b a.

(** Comparisons of a column with a scalar: false on NaN. *)
Definition gt (c : cell) (q : Q) : bool :=
  match c with Some x => num_ltb (Fin q) x | None => false end.
Definition ge (c : cell) (q : Q) : bool :=
  match c with Some x => num_leb (Fin q) x | None => false end.
Definition le (c : cell) (q : Q) : bool :=
  match c with Some x => num_leb x (Fin q) | None => false end.

(** [!=] of two columns: true as soon as one side is NaN. *)
Definition ne (a b : cell) : bool :=
  match a, b with
  | Some x, Some y => negb (num_eqb x y)
  | _, _ => true
  end.

Definition sign_pos (q : Q) : bool := Qle_bool 0 q.

(** Float division; signed zeros are not distinguished (a zero divisor
    counts as +0). *)
Definition div (a b : cell) : cell :=
  match a, b with
  | Some (Fin x), Some (Fin y) =>
      if Qeq_bool y 0 then
        if Qeq_bool x 0 then None
        else Some (if sign_pos x then PInf else NInf)
      else Some (Fin (x / y))
  | Some (Fin _), Some _ => Some (Fin 0)
  | Some PInf, Some (Fin y) => Some (if sign_pos y then PInf else NInf)
  | Some NInf, Some (Fin y) => Some (if sign_pos y then NInf else PInf)
  | _, _ => None
  end.

Definition sub (a b : cell) : cell :=
  match a, b with
  | Some (Fin x), Some (Fin y) => Some (Fin (x - y))
  | Some PInf, Some PInf => None
  | Some NInf, Some NInf => None
  | Some PInf, Some _ => Some PInf
  | Some NInf, Some _ => Some NInf
  | Some (Fin _), Some PInf => Some NInf
  | Some (Fin _), Some NInf => Some PInf
  | _, _ => None
  end.

(** [np.where(cond, a, b)] at one position. *)
Definition np_where (cond : bool) (a b : cell) : cell :=
  if cond then a else b.

(** The player identity key (player_id, player_name_ko, team_name_ko). *)
Record Key := mkKey {
  k_player_id : Z;
  k_player_name_ko : string;
  k_team_name_ko : string
}.

Definition Key_eq_dec (a b : Key) : {a = b} + {a <> b}.
Proof.
  decide equality; try apply string_dec; apply Z.eq_dec.
Defined.

Definition key_eqb (a b : Key) : bool :=
  if Key_eq_dec a b then true else false.

Lemma key_eqb_eq a b : key_eqb a b = true <-> a = b.
Proof.
  unfold key_eqb; destruct (Key_eq_dec a b); split; congruence.
Qed.


Lemma key_eqb_neq a b : key_eqb a b = false <-> a <> b.
Proof.
  unfold key_eqb; destruct (Key_eq_dec a b); split; congruence.
Qed.

Definition key_of (e : RawEvent) : Key :=
  mkKey (player_id e) (player_name_ko e) (team_name_ko e).

(** A row: the identity key and the named numeric cells. *)
Record Row := mkRow {
  key : Key;
  cells : list (string * cell)
}.

Record Table := mkTable {
  columns : list string;
  rows : list Row
}.

Fixpoint assoc {V : Type} (c : string) (l : list (string * V)) : option V :=
  match l with
  | [] => None
  | (n, v) :: r => if String.eqb c n then Some v else assoc c r
  end.

(** [row[c]]; a cell the row does not have reads as NaN. *)
Definition get (r : Row) (c : string) : cell :=
  match assoc c (cells r) with Some v => v | None => None end.

Fixpoint set_cell (c : string) (v : cell) (l : list (string * cell))
  : list (string * cell) :=
  match l with
  | [] => [(c, v)]
  | (n, w) :: r =>
      if String.eqb c n then (n, v) :: r else (n, w) :: set_cell c v r
  end.

Definition has_col (c : string) (t : Table) : bool := isin c (columns t).

(** [t[name] = f(row)], column-wise assignment. *)
Definition assign (name : string) (f : Row -> cell) (t : Table) : Table :=
  {| columns := if has_col name t then columns t else columns t ++ [name];
     rows := map (fun r => mkRow (key r) (set_cell name (f r) (cells r)))
                 (rows t) |}.

Definition nan_cells (cols : list string) : list (string * cell) :=
  map (fun c => (c, nan)) cols.

Definition has_key (k : Key) (t : Table) : bool :=
  existsb (fun r => key_eqb (key r) k) (rows t).

(** [a.merge(b, on=[player_id, player_name_ko, team_name_ko], how="outer")]
    for tables without common value columns.  Row order (pandas sorts
    an outer join by key) is not modelled. *)
Definition merge_outer (a b : Table) : Table :=
  {| columns := columns a ++ columns b;
     rows :=
       flat_map
         (fun r =>
            match filter (fun s => key_eqb (key s) (key r)) (rows b) with
            | [] => [mkRow (key r) (cells r ++ nan_cells (columns b))]
            | ms => map (fun s => mkRow (key r) (cells r ++ cells s)) ms
            end) (rows a)
       ++ map (fun s => mkRow (key s) (nan_cells (columns a) ++ cells s))
              (filter (fun s => negb (has_key (key s) a)) (rows b)) |}.

(** [a.merge(b[on + cols], on=on, how="left")], for [cols] that are not
    yet columns of [a] (pandas would rename common columns with the
    suffixes _x and _y); [on] compares the join columns of two rows. *)
Definition merge_left_on (on : Key -> Key -> bool) (a b : Table)
           (cols : list string) : Table :=
  {| columns := columns a ++ cols;
     rows :=
       flat_map
         (fun r =>
            match filter (fun s => on (key s) (key r)) (rows b) with
            | [] => [mkRow (key r) (cells r ++ nan_cells cols)]
            | ms => map (fun s =>
                           mkRow (key r)
                                 (cells r ++ map (fun c => (c, get s c)) cols))
                        ms
            end) (rows a) |}.

Definition same_player_id (s r : Key) : bool :=
  (k_player_id s =? k_player_id r)%Z.

(** [a.merge(b[["player_id"] + cols], on="player_id", how="left")]. *)
Definition merge_left (a b : Table) (cols : list string) : Table :=
  merge_left_on same_player_id a b cols.

(** [t[numeric_cols] = t[numeric_cols].fillna(0)]. *)
Definition fillna_all (t : Table) : Table :=
  {| columns := columns t;
     rows := map (fun r =>
                    mkRow (key r)
                          (map (fun p => (fst p, Some (fillna (Fin 0) (snd p))))
                               (cells r)))
                 (rows t) |}.

(** [rows.groupby(key).agg(name=..., ...).reset_index()]: one row per
    distinct key, one cell per named aggregation.  The groups come in
    the order of first appearance (pandas sorts them by key; no result
    below depends on the order of the rows). *)
Definition groupby_agg {E : Type} (key_of : E -> Key) (sub : list E)
           (aggs : list (string * (list E -> cell))) : Table :=
  {| columns := map fst aggs;
     rows :=
       map (fun k =>
              mkRow k (map (fun a =>
                              (fst a,
                               snd a (filter (fun e => key_eqb (key_of e) k) sub)))
                           aggs))
           (nodup Key_eq_dec (map key_of sub)) |}.

(** ** Order facts on [num] *)

Lemma num_leb_total a b : num_leb a b = false -> num_leb b a = true.
Proof.
  destruct a as [x| |], b as [y| |]; simpl; try congruence.
  intros H. apply Qle_bool_iff.
  destruct (Qlt_le_dec y x) as [L|L]; [apply Qlt_le_weak, L|].
  apply Qle_bool_iff in L. congruence.
Qed.

Lemma num_leb_trans a b c :
  num_leb a b = true -> num_leb b c = true -> num_leb a c = true.
Proof.
  destruct a as [x| |], b as [y| |], c as [z| |]; simpl; try congruence.
  rewrite !Qle_bool_iff. apply Qle_trans.
Qed.

Lemma num_leb_refl a : num_leb a a = true.
Proof.
  destruct (num_leb a a) eqn:E; [reflexivity|].
  pose proof (num_leb_total a a E) as E'. congruence.
Qed.

(** ** Cells of a row *)

Lemma assoc_app {V} c (l1 l2 : list (string * V)) :
  assoc c (l1 ++ l2) =
  match assoc c l1 with Some v => Some v | None => assoc c l2 end.
Proof.
  induction l1 as [|[n v] r IH]; simpl; [reflexivity|].
  destruct (String.eqb c n); [reflexivity | exact IH].
Qed.

Lemma assoc_set_same c v l : assoc c (set_cell c v l) = Some v.
Proof.
  induction l as [|[n w] r IH]; simpl.
  - rewrite String.eqb_refl; reflexivity.
  - destruct (String.eqb c n) eqn:E; simpl; rewrite E; auto.
Qed.

Lemma assoc_set_other c d v l :
  c <> d -> assoc c (set_cell d v l) = assoc c l.
Proof.
  intros N. induction l as [|[n w] r IH]; simpl.
  - destruct (String.eqb c d) eqn:E; [|reflexivity].
    apply String.eqb_eq in E; contradiction.
  - destruct (String.eqb d n) eqn:E; simpl.
    + apply String.eqb_eq in E; subst n.
      destruct (String.eqb c d) eqn:E'; [|reflexivity].
      apply String.eqb_eq in E'; contradiction.
    + destruct (String.eqb c n); [reflexivity | exact IH].
Qed.

Lemma assoc_nan_cells c cols :
  assoc c (nan_cells cols) = if isin c cols then Some nan else None.
Proof.
  unfold isin. induction cols as [|d r IH]; simpl; [reflexivity|].
  destruct (String.eqb c d); simpl; [reflexivity | exact IH].
Qed.

Lemma assoc_None_iff {V} c (l : list (string * V)) :
  assoc c l = None <-> ~ In c (map fst l).
Proof.
  induction l as [|[n v] r IH]; simpl; [tauto|].
  destruct (String.eqb c n) eqn:E.
  - apply String.eqb_eq in E; subst. split; [discriminate | tauto].
  - apply String.eqb_neq in E. rewrite IH. split; [|tauto].
    intros H [F|F]; [congruence | tauto].
Qed.

Lemma isin_In s l : isin s l = true <-> In s l.
Proof.
  unfold isin. rewrite existsb_exists. split.
  - intros [x [Hx E]]. apply String.eqb_eq in E; subst; exact Hx.
  - intros H; exists s; split; [exact H | apply String.eqb_refl].
Qed.

End Frame.

(* ================================================================== *)
(** * Outer joins of keyed tables *)
(* ================================================================== *)

Module Joins.
Import Frame.

(** A keyed table: one row per key, and every row carries exactly the
    table's columns. *)
Definition keyed (t : Table) : Prop :=
  NoDup (map key (rows t)) /\
  forall r, In r (rows t) -> map fst (cells r) = columns t.

Lemma has_key_In k t : has_key k t = true <-> In k (map key (rows t)).
Proof.
  unfold has_key. rewrite existsb_exists, in_map_iff. split.
  - intros [r [Hr E]]. apply key_eqb_eq in E. eauto.
  - intros [r [E Hr]]. exists r. split; [exact Hr | apply key_eqb_eq, E].
Qed.

Lemma has_key_false k t : has_key k t = false <-> ~ In k (map key (rows t)).
Proof.
  rewrite <- has_key_In. destruct (has_key k t); split; congruence.
Qed.

Lemma NoDup_app_disjoint {A} (l1 l2 : list A) x :
  NoDup (l1 ++ l2) -> In x l1 -> In x l2 -> False.
Proof.
  induction l1 as [|a l1 IH]; simpl; [tauto|].
  intros N [E|H1] H2; inversion N as [|? ? Na N']; subst.
  - apply Na, in_or_app; right; exact H2.
  - exact (IH N' H1 H2).
Qed.

Lemma NoDup_app_l {A} (l1 l2 : list A) : NoDup (l1 ++ l2) -> NoDup l1.
Proof.
  induction l1 as [|a l1 IH]; simpl; intros N; [constructor|].
  inversion N as [|? ? Na N']; subst. constructor; [|exact (IH N')].
  intros H; apply Na, in_or_app; left; exact H.
Qed.

Lemma NoDup_app_r {A} (l1 l2 : list A) : NoDup (l1 ++ l2) -> NoDup l2.
Proof.
  induction l1 as [|a l1 IH]; simpl; intros N; [exact N|].
  inversion N; subst; auto.
Qed.

Lemma NoDup_app_intro {A} (l1 l2 : list A) :
  NoDup l1 -> NoDup l2 -> (forall x, In x l1 -> In x l2 -> False) ->
  NoDup (l1 ++ l2).
Proof.
  induction l1 as [|a l1 IH]; simpl; intros N1 N2 D; [exact N2|].
  inversion N1 as [|? ? Na N1']; subst. constructor.
  - intros H. apply in_app_or in H. destruct H as [H|H]; [tauto|].
    exact (D a (or_introl eq_refl) H).
  - apply IH; auto. intros x H1 H2. exact (D x (or_intror H1) H2).
Qed.

(** In a table with one row per key the rows of a given key are at most
    one. *)
Lemma filter_key_unique k (l : list Row) :
  NoDup (map key l) ->
  filter (fun s => key_eqb (key s) k) l = [] \/
  exists s, In s l /\ key s = k /\
            filter (fun s => key_eqb (key s) k) l = [s].
Proof.
  induction l as [|s l IH]; simpl; intros N; [left; reflexivity|].
  inversion N as [|? ? Ns N']; subst.
  destruct (key_eqb (key s) k) eqn:E.
  - right. exists s. apply key_eqb_eq in E.
    split; [left; reflexivity|]. split; [exact E|].
    f_equal. destruct (IH N') as [H|[s' [Hs' [Ek _]]]]; [exact H|].
    exfalso. apply Ns. rewrite E, <- Ek. apply in_map, Hs'.
  - destruct (IH N') as [H|[s' [Hs' [Ek H]]]]; [left; exact H|].
    right. exists s'. split; [right; exact Hs' | split; assumption].
Qed.

Lemma filter_key_nil k (l : list Row) :
  filter (fun s => key_eqb (key s) k) l = [] <-> ~ In k (map key l).
Proof.
  induction l as [|s l IH]; simpl; [tauto|].
  destruct (key_eqb (key s) k) eqn:E.
  - apply key_eqb_eq in E. split; [discriminate | tauto].
  - apply key_eqb_neq in E. rewrite IH. tauto.
Qed.

(** The rows an outer join produces, one case per origin. *)
Inductive joined (a b : Table) (r' : Row) : Prop :=
| joined_both r s :
    In r (rows a) -> In s (rows b) -> key s = key r ->
    r' = mkRow (key r) (cells r ++ cells s) -> joined a b r'
| joined_left r :
    In r (rows a) -> has_key (key r) b = false ->
    r' = mkRow (key r) (cells r ++ nan_cells (columns b)) -> joined a b r'
| joined_right s :
    In s (rows b) -> has_key (key s) a = false ->
    r' = mkRow (key s) (nan_cells (columns a) ++ cells s) -> joined a b r'.

Lemma merge_outer_rows a b r' :
  In r' (rows (merge_outer a b)) -> joined a b r'.
Proof.
  unfold merge_outer; simpl. intros H. apply in_app_or in H.
  destruct H as [H|H].
  - apply in_flat_map in H. destruct H as [r [Hr H]].
    destruct (filter (fun s => key_eqb (key s) (key r)) (rows b))
      as [|s0 ms] eqn:F.
    + destruct H as [<-|[]]. apply (joined_left a b _ r); auto.
      apply has_key_false, filter_key_nil, F.
    + change (In r' (map (fun s => mkRow (key r) (cells r ++ cells s))
                         (s0 :: ms))) in H.
      apply in_map_iff in H. destruct H as [s [<- Hs]].
      rewrite <- F in Hs. apply filter_In in Hs. destruct Hs as [Hs E].
      apply key_eqb_eq in E. apply (joined_both a b _ r s); auto.
  - apply in_map_iff in H. destruct H as [s [<- Hs]].
    apply filter_In in Hs. destruct Hs as [Hs E].
    apply (joined_right a b _ s); auto.
    destruct (has_key (key s) a); [discriminate | reflexivity].
Qed.

Lemma merge_outer_keys a b :
  NoDup (map key (rows b)) ->
  map key (rows (merge_outer a b)) =
  map key (rows a) ++
  map key (filter (fun s => negb (has_key (key s) a)) (rows b)).
Proof.
  intros Nb. unfold merge_outer; simpl. rewrite map_app. f_equal.
  - induction (rows a) as [|r l IH]; simpl; [reflexivity|].
    rewrite map_app, IH. f_equal.
    destruct (filter_key_unique (key r) (rows b) Nb) as [E|[s [_ [_ E]]]];
      rewrite E; reflexivity.
  - rewrite map_map. simpl. rewrite <- map_map with (f := key) (g := fun k => k).
    rewrite map_id. reflexivity.
Qed.

Lemma merge_outer_keyed a b :
  keyed a -> keyed b -> keyed (merge_outer a b).
Proof.
  intros [Na Ca] [Nb Cb]. split.
  - rewrite (merge_outer_keys a b Nb). apply NoDup_app_intro; [exact Na| |].
    + clear - Nb. induction (rows b) as [|s l IH]; simpl; [constructor|].
      inversion Nb as [|? ? Ns N']; subst.
      destruct (negb (has_key (key s) a)); simpl; [|exact (IH N')].
      constructor; [|exact (IH N')].
      intros H. apply Ns. apply in_map_iff in H.
      destruct H as [s' [E Hs']]. apply filter_In in Hs'.
      rewrite <- E. apply in_map, Hs'.
    + intros k H1 H2. apply in_map_iff in H2.
      destruct H2 as [s [E Hs]]. apply filter_In in Hs.
      destruct Hs as [_ Hs]. subst k.
      apply has_key_In in H1. rewrite H1 in Hs. discriminate.
  - intros r' H. apply merge_outer_rows in H.
    destruct H as [r s Hr Hs _ ->|r Hr _ ->|s Hs _ ->]; simpl;
      rewrite map_app; unfold nan_cells; rewrite ?map_map; simpl;
      rewrite ?map_id, ?(Ca _ Hr), ?(Cb _ Hs); reflexivity.
Qed.

Lemma merge_outer_has_key a b k :
  NoDup (map key (rows b)) ->
  has_key k (merge_outer a b) = has_key k a || has_key k b.
Proof.
  intros Nb.
  apply eq_true_iff_eq. rewrite orb_true_iff, !has_key_In.
  rewrite (merge_outer_keys a b Nb), in_app_iff.
  split.
  - intros [H|H]; [left; exact H|].
    apply in_map_iff in H. destruct H as [s [E Hs]].
    apply filter_In in Hs. right. rewrite <- E. apply in_map, Hs.
  - intros [H|H]; [left; exact H|].
    destruct (has_key k a) eqn:Ka; [left; apply has_key_In, Ka|].
    right. apply in_map_iff in H. destruct H as [s [E Hs]].
    apply in_map_iff.
    exists s. split; [exact E|]. apply filter_In. split; [exact Hs|].
    rewrite E, Ka. reflexivity.
Qed.

Lemma get_app_left r c extra k :
  In c (map fst (cells r)) ->
  get (mkRow k (cells r ++ extra)) c = get r c.
Proof.
  intros H. unfold get; simpl. rewrite assoc_app.
  destruct (assoc c (cells r)) eqn:E; [reflexivity|].
  apply assoc_None_iff in E. contradiction.
Qed.

Lemma get_app_right l c extra k :
  ~ In c (map fst l) ->
  get (mkRow k (l ++ extra)) c = get (mkRow k extra) c.
Proof.
  intros H. unfold get; simpl. rewrite assoc_app.
  apply assoc_None_iff in H. rewrite H. reflexivity.
Qed.

Lemma get_nan_cells k cols extra c :
  In c cols -> get (mkRow k (nan_cells cols ++ extra)) c = nan.
Proof.
  intros H. unfold get; simpl. rewrite assoc_app, assoc_nan_cells.
  apply isin_In in H. rewrite H. reflexivity.
Qed.

(** What a left-to-right chain of outer joins of the tables [ts] has
    produced: a keyed table over all their columns, holding every key of
    every table, with NaN in the columns of each table a key is absent
    from. *)
Record merged_of (ts : list Table) (t : Table) : Prop := {
  mo_keyed : keyed t;
  mo_columns : columns t = flat_map columns ts;
  mo_keys : forall k, has_key k t = existsb (has_key k) ts;
  mo_absent : forall r u c,
      In r (rows t) -> In u ts -> In c (columns u) ->
      has_key (key r) u = false -> get r c = nan
}.

Lemma merged_of_step ts t b :
  merged_of ts t -> keyed b ->
  (forall c, In c (columns b) -> ~ In c (flat_map columns ts)) ->
  merged_of (ts ++ [b]) (merge_outer t b).
Proof.
  intros [Kt Ct Ht At] Kb D.
  assert (Ct' : forall u c, In u ts -> In c (columns u) -> In c (columns t)).
  { intros u c Hu Hc. rewrite Ct. apply in_flat_map. eauto. }
  split.
  - apply merge_outer_keyed; assumption.
  - simpl. rewrite flat_map_app, Ct. simpl. rewrite app_nil_r. reflexivity.
  - intros k. rewrite (merge_outer_has_key t b k (proj1 Kb)).
    rewrite existsb_app, Ht. simpl. rewrite orb_false_r. reflexivity.
  - intros r' u c Hr' Hu Hc Habs.
    apply merge_outer_rows in Hr'. apply in_app_or in Hu.
    destruct Hr' as [r s Hr Hs E ->|r Hr Kr ->|s Hs Ks ->]; simpl in Habs.
    + destruct Hu as [Hu|[<-|[]]].
      * rewrite get_app_left
          by (rewrite (proj2 Kt r Hr); eapply Ct'; eauto).
        eapply At; eauto.
      * exfalso. assert (X : has_key (key r) b = true)
          by (apply has_key_In; rewrite <- E; apply in_map, Hs).
        congruence.
    + destruct Hu as [Hu|[<-|[]]].
      * rewrite get_app_left
          by (rewrite (proj2 Kt r Hr); eapply Ct'; eauto).
        eapply At; eauto.
      * rewrite get_app_right.
        -- apply (get_nan_cells (key r) (columns b) [] c) in Hc.
           rewrite app_nil_r in Hc. exact Hc.
        -- rewrite (proj2 Kt r Hr), Ct. apply D, Hc.
    + destruct Hu as [Hu|[<-|[]]].
      * apply get_nan_cells. eapply Ct'; eauto.
      * exfalso. assert (X : has_key (key s) b = true)
          by (apply has_key_In, in_map, Hs).
        congruence.
Qed.

Lemma merged_of_fold rs : forall ts t,
  merged_of ts t -> (forall b, In b rs -> keyed b) ->
  NoDup (flat_map columns (ts ++ rs)) ->
  merged_of (ts ++ rs) (fold_left merge_outer rs t).
Proof.
  induction rs as [|b rs IH]; intros ts t M K N; simpl.
  - rewrite app_nil_r. exact M.
  - replace (ts ++ b :: rs) with ((ts ++ [b]) ++ rs) in *
      by (rewrite <- app_assoc; reflexivity).
    apply IH; [|intros; apply K; right; assumption|exact N].
    apply merged_of_step; [exact M | apply K; left; reflexivity|].
    intros c Hc Hin.
    rewrite !flat_map_app in N. simpl in N. rewrite app_nil_r in N.
    apply NoDup_app_l in N.
    exact (NoDup_app_disjoint _ _ c N Hin Hc).
Qed.

Lemma merged_of_single t :
  keyed t -> merged_of [t] t.
Proof.
  intros K. split; simpl.
  - exact K.
  - rewrite app_nil_r; reflexivity.
  - intros k. rewrite orb_false_r. reflexivity.
  - intros r u c Hr [<-|[]] _ Habs. exfalso.
    assert (X : has_key (key r) t = true) by (apply has_key_In, in_map, Hr).
    congruence.
Qed.

(** ** groupby *)

Lemma groupby_agg_keys {E} (kf : E -> Key) sub aggs :
  map key (rows (groupby_agg kf sub aggs)) = nodup Key_eq_dec (map kf sub).
Proof.
  unfold groupby_agg; simpl. rewrite map_map. simpl. apply map_id.
Qed.

Lemma groupby_agg_keyed {E} (kf : E -> Key) sub aggs :
  keyed (groupby_agg kf sub aggs).
Proof.
  split.
  - rewrite groupby_agg_keys. apply NoDup_nodup.
  - intros r Hr. unfold groupby_agg in *; simpl in *.
    apply in_map_iff in Hr. destruct Hr as [k [<- _]]. simpl.
    rewrite map_map. reflexivity.
Qed.

Lemma groupby_agg_has_key {E} (kf : E -> Key) sub aggs k :
  has_key k (groupby_agg kf sub aggs) = true <->
  exists e, In e sub /\ kf e = k.
Proof.
  rewrite has_key_In, groupby_agg_keys, nodup_In, in_map_iff.
  split; intros [e [A B]]; exists e; auto.
Qed.

Lemma groupby_agg_get {E} (kf : E -> Key) sub aggs r name f :
  In r (rows (groupby_agg kf sub aggs)) ->
  assoc name aggs = Some f ->
  get r name = f (filter (fun e => key_eqb (kf e) (key r)) sub).
Proof.
  unfold groupby_agg; simpl. intros Hr Hf.
  apply in_map_iff in Hr. destruct Hr as [k [<- _]].
  unfold get; simpl.
  induction aggs as [|[n g] l IH]; simpl in *; [discriminate|].
  destruct (String.eqb name n); [congruence | apply IH, Hf].
Qed.

(** ** fillna *)

Lemma fillna_all_get r c :
  In c (map fst (cells r)) ->
  get (mkRow (key r)
             (map (fun p => (fst p, Some (fillna (Fin 0) (snd p))))
                  (cells r))) c
  = Some (fillna (Fin 0) (get r c)).
Proof.
  unfold get; simpl. induction (cells r) as [|[n v] l IH]; simpl; [tauto|].
  intros [E|H].
  - subst. rewrite String.eqb_refl. reflexivity.
  - destruct (String.eqb c n); [reflexivity | apply IH, H].
Qed.

End Joins.

(* ================================================================== *)
(** * aggregate.py: aggregate_player_stats *)
(* ================================================================== *)

Module Aggregate.
Import Frame Joins.

(** [("action_id", "count")]: the number of rows of the group. *)
Definition agg_count (g : list Event) : cell := of_nat (List.length g).

(** [(flag, "sum")]: the number of rows of the group with the flag set. *)
Definition agg_sum (flag : Event -> bool) (g : list Event) : cell :=
  of_nat (count flag g).

(** One block of [aggregate_player_stats]: the row mask and the named
    aggregations of the group-by. *)
Record Category := mkCategory {
  cat_mask : Event -> bool;
  cat_aggs : list (string * (list Event -> cell))
}.

Definition type_is (s : string) (e : Event) : bool :=
  String.eqb (type_name e) s.
Definition type_in (l : list string) (e : Event) : bool :=
  isin (type_name e) l.

Definition tackle : Category :=
  mkCategory (type_is "Tackle")
    [("tackle_attempt", agg_count); ("tackle_fail", agg_sum is_fail)].
Definition duel : Category :=
  mkCategory (type_is "Duel")
    [("duel_attempt", agg_count); ("duel_fail", agg_sum is_fail)].
Definition foul : Category :=
  mkCategory (type_in Config.FOUL_TYPES)
    [("foul_count", agg_count); ("danger_foul_count", agg_sum in_def_third)].
Definition clearance : Category :=
  mkCategory (type_in ["Clearance"; "Aerial Clearance"])
    [("clearance_attempt", agg_count)].
Definition block : Category :=
  mkCategory (type_is "Block")
    [("block_attempt", agg_count); ("block_fail", agg_sum is_fail)].
Definition interception : Category :=
  mkCategory (type_is "Interception")
    [("interception_attempt", agg_count);
     ("interception_fail", agg_sum is_fail)].
Definition cards : Category :=
  mkCategory is_card [("card_count", agg_count)].
Definition def_actions : Category :=
  mkCategory (type_in Config.DEF_ACTIONS) [("def_actions", agg_count)].

Definition categories : list Category :=
  [tackle; duel; foul; clearance; block; interception; cards; def_actions].

Definition cat_columns (c : Category) : list string := map fst (cat_aggs c).

Definition player_key (e : Event) : Key := key_of e.

(** [sub = df[mask]; if len(sub) > 0: results.append(sub.groupby(...))]. *)
Definition category_table (df : list Event) (c : Category) : list Table :=
  let sub := filter (cat_mask c) df in
  if (0 <? List.length sub)%nat
  then [groupby_agg player_key sub (cat_aggs c)]
  else [].

Definition results (df : list Event) : list Table :=
  flat_map (category_table df) categories.

Definition expected_columns : list string :=
  ["tackle_attempt"; "tackle_fail"; "duel_attempt"; "duel_fail";
   "foul_count"; "danger_foul_count"; "clearance_attempt";
   "block_attempt"; "block_fail";
   "interception_attempt"; "interception_fail";
   "card_count"; "def_actions"].

(** The text columns of the key are never null in the model, so the
    closing forward/backward fill of the names changes nothing. *)
Definition aggregate_player_stats (df : list Event) : Table :=
  match results df with
  | [] => mkTable expected_columns []
  | r0 :: rs => fillna_all (fold_left merge_outer rs r0)
  end.

(** The player appears in the event set of category [c]. *)
Definition triggered (df : list Event) (c : Category) (k : Key) : Prop :=
  exists e, In e df /\ cat_mask c e = true /\ player_key e = k.

(** Category [c] occurs in the season at all. *)
Definition occurs (df : list Event) (c : Category) : Prop :=
  exists e, In e df /\ cat_mask c e = true.

Lemma category_table_occurs df c :
  occurs df c ->
  category_table df c =
  [groupby_agg player_key (filter (cat_mask c) df) (cat_aggs c)].
Proof.
  intros [e [He Me]]. unfold category_table.
  destruct (filter (cat_mask c) df) as [|x l] eqn:F; [|reflexivity].
  assert (X : In e (filter (cat_mask c) df)) by (apply filter_In; auto).
  rewrite F in X. destruct X.
Qed.

Lemma category_table_cases df c :
  category_table df c = [] \/
  category_table df c =
  [groupby_agg player_key (filter (cat_mask c) df) (cat_aggs c)].
Proof.
  unfold category_table.
  destruct (0 <? List.length (filter (cat_mask c) df))%nat; auto.
Qed.

Lemma in_results df u :
  In u (results df) ->
  exists c, In c categories /\
            u = groupby_agg player_key (filter (cat_mask c) df) (cat_aggs c).
Proof.
  unfold results. intros H. apply in_flat_map in H.
  destruct H as [c [Hc H]].
  destruct (category_table_cases df c) as [E|E]; rewrite E in H;
    [destruct H|]. destruct H as [<-|[]]. eauto.
Qed.

Lemma results_of_category df c :
  In c categories -> occurs df c ->
  In (groupby_agg player_key (filter (cat_mask c) df) (cat_aggs c))
     (results df).
Proof.
  intros Hc Ho. unfold results. apply in_flat_map. exists c.
  split; [exact Hc|]. rewrite (category_table_occurs df c Ho).
  left; reflexivity.
Qed.

Lemma category_columns_distinct :
  NoDup (flat_map cat_columns categories).
Proof.
  vm_compute.
  repeat (constructor;
          [simpl; intros H;
           repeat (destruct H as [H|H]; [discriminate H|]); exact H|]).
  constructor.
Qed.

Lemma results_columns_distinct df :
  NoDup (flat_map columns (results df)).
Proof.
  unfold results.
  assert (G : forall cs, NoDup (flat_map cat_columns cs) ->
            NoDup (flat_map columns (flat_map (category_table df) cs)) /\
            forall x, In x (flat_map columns (flat_map (category_table df) cs))
                      -> In x (flat_map cat_columns cs)).
  { induction cs as [|c cs IH]; simpl; intros N.
    - split; [constructor | tauto].
    - destruct (IH (NoDup_app_r _ _ N)) as [N' S'].
      rewrite flat_map_app.
      destruct (category_table_cases df c) as [E|E]; rewrite E; simpl.
      + split; [exact N'|]. intros x Hx. apply in_or_app; right; auto.
      + rewrite app_nil_r. fold (cat_columns c). split.
        * apply NoDup_app_intro; [exact (NoDup_app_l _ _ N) | exact N'|].
          intros x H1 H2.
          exact (NoDup_app_disjoint _ _ x N H1 (S' x H2)).
        * intros x Hx. apply in_app_or in Hx. apply in_or_app.
          destruct Hx; [left | right]; auto. }
  exact (proj1 (G categories category_columns_distinct)).
Qed.

Lemma results_merged df r0 rs :
  results df = r0 :: rs ->
  merged_of (results df) (fold_left merge_outer rs r0).
Proof.
  intros E.
  assert (K : forall u, In u (results df) -> keyed u).
  { intros u Hu. apply in_results in Hu. destruct Hu as [c [_ ->]].
    apply groupby_agg_keyed. }
  pose proof (results_columns_distinct df) as N.
  rewrite E in *.
  apply (merged_of_fold rs [r0] r0).
  - apply merged_of_single, K. left; reflexivity.
  - intros b Hb. apply K. right; exact Hb.
  - exact N.
Qed.

(** C3.  A player is identified by the key of the group-by
    (player_id, player_name_ko, team_name_ko).  Every such player with an
    event in some category has exactly one row in the aggregate table;
    no cell of that row is null; and each count column of a category that
    occurs in the season but that the player never triggered is a column
    of the table and holds 0. *)
Theorem aggregate_player_stats_one_row_zero_filled :
  forall (df : list Event) (k : Key),
    (exists c, In c categories /\ triggered df c k) ->
    let t := aggregate_player_stats df in
    count (fun r => key_eqb (key r) k) (rows t) = 1%nat /\
    forall r, In r (rows t) -> key r = k ->
      (forall col, In col (columns t) -> get r col <> nan) /\
      (forall c col,
          In c categories -> occurs df c -> ~ triggered df c k ->
          In col (cat_columns c) ->
          In col (columns t) /\ get r col = Some (Fin 0)).
Proof.
  intros df k [c0 [Hc0 [e0 [He0 [Me0 Ke0]]]]] t. subst t.
  assert (O0 : occurs df c0) by (exists e0; auto).
  pose proof (results_of_category df c0 Hc0 O0) as In0.
  unfold aggregate_player_stats.
  destruct (results df) as [|r0 rs] eqn:ER; [destruct In0|].
  pose proof (results_merged df r0 rs ER) as M. rewrite ER in M.
  destruct M as [[Nk Ck] Cols Keys Abs].
  set (m := fold_left merge_outer rs r0) in *.
  assert (Hk : has_key k m = true).
  { rewrite Keys. apply existsb_exists.
    eexists; split; [exact In0|].
    apply groupby_agg_has_key. exists e0. split; [|exact Ke0].
    apply filter_In; auto. }
  split.
  - unfold count. simpl. rewrite filter_map_swap, length_map.
    simpl. apply has_key_In in Hk.
    destruct (filter_key_unique k (rows m) Nk) as [E|[s [_ [_ E]]]].
    + apply filter_key_nil in E. contradiction.
    + rewrite E. reflexivity.
  - simpl. intros r' Hr' Kr'.
    apply in_map_iff in Hr'. destruct Hr' as [r [<- Hr]].
    simpl in Kr'. split.
    + intros col Hcol. rewrite fillna_all_get by (rewrite (Ck r Hr); exact Hcol).
      discriminate.
    + intros c col Hc Oc Nt Hcol.
      pose proof (results_of_category df c Hc Oc) as Inc. rewrite ER in Inc.
      assert (Hcm : In col (columns m)).
      { rewrite Cols. apply in_flat_map. eexists; split; [exact Inc|].
        exact Hcol. }
      split; [exact Hcm|].
      rewrite fillna_all_get by (rewrite (Ck r Hr); exact Hcm).
      rewrite (Abs r _ col Hr Inc Hcol); [reflexivity|].
      destruct (has_key (key r) _) eqn:Hh; [|reflexivity].
      exfalso. apply Nt. apply groupby_agg_has_key in Hh.
      destruct Hh as [e [He Ke]]. apply filter_In in He.
      exists e. rewrite <- Kr'. tauto.
Qed.

Definition ev (pid : Z) (name team : string) (tid : Z) (game period : Z)
           (t : Q) (aid : Z) (ty res : string) : Event :=
  Preprocess.derive (mkRaw game period t aid pid name tid team ty res 50 30).

(** A two-player season: player 7 only tackles, player 9 only fouls. *)
Definition season_tackle_foul : list Event :=
  [ev 7 "Kim" "Ulsan" 1 100 1 10 1 "Tackle" "Unsuccessful";
   ev 9 "Lee" "Jeonbuk" 2 100 1 20 2 "Foul" "Successful"].

Lemma aggregate_player_stats_one_row_zero_filled_witness :
  let k := mkKey 7 "Kim" "Ulsan" in
  let t := aggregate_player_stats season_tackle_foul in
  count (fun r => key_eqb (key r) k) (rows t) = 1%nat /\
  forall r, In r (rows t) -> key r = k ->
    (forall col, In col (columns t) -> get r col <> nan) /\
    (forall c col,
        In c categories -> occurs season_tackle_foul c ->
        ~ triggered season_tackle_foul c k ->
        In col (cat_columns c) ->
        In col (columns t) /\ get r col = Some (Fin 0)).
Proof.
  apply (aggregate_player_stats_one_row_zero_filled
           season_tackle_foul (mkKey 7 "Kim" "Ulsan")).
  exists tackle. split; [left; reflexivity|].
  eexists. split; [left; reflexivity|]. split; reflexivity.
Defined.

(** The same player_id under two team names is two players for the
    group-by, hence two rows. *)
Example two_rows_for_a_transferred_player :
  List.length
    (rows (aggregate_player_stats
             [ev 7 "Kim" "Ulsan" 1 100 1 10 1 "Tackle" "Successful";
              ev 7 "Kim" "Jeonbuk" 2 200 1 10 1 "Tackle" "Successful"]))
  = 2%nat.
Proof. vm_compute. reflexivity. Qed.

End Aggregate.

(* ================================================================== *)
(** * aggregate.py: calculate_clearance_panic *)
(* ================================================================== *)

Module ClearancePanic.
Import Frame Joins.

Definition is_clearance (e : Event) : bool :=
  isin (type_name e) ["Clearance"; "Aerial Clearance"].
Definition is_shot (e : Event) : bool := String.eqb (type_name e) "Shot".

(** Columns of the preprocessed event table. *)
Definition event_columns : list string :=
  ["game_id"; "period_id"; "time_seconds"; "action_id"; "player_id";
   "player_name_ko"; "team_id"; "team_name_ko"; "type_name";
   "result_name"; "start_x"; "start_y";
   "is_success"; "is_fail"; "is_card"; "in_def_third"].

(** Column names of [pd.merge_asof(left, right, on=on, suffixes=(sl, sr))]:
    the key column appears once, under its own name; every other column
    the two frames share is suffixed. *)
Definition asof_columns (on : string) (left right : list string)
           (sl sr : string) : list string :=
  map (fun c => if String.eqb c on then c
                else if isin c right then String.append c sl else c) left
  ++ flat_map (fun c => if String.eqb c on then []
                        else [if isin c left then String.append c sr else c])
              right.

Definition m_columns : list string :=
  asof_columns "time_seconds" event_columns event_columns "_clr" "_shot".

(** A row of the as-of join: the clearance, and the shot matched to it
    (none: all the _shot columns are NaN).  The single time_seconds
    column is the clearance's (the left key). *)
Record AsofRow := mkAsof {
  a_clr : Event;
  a_shot : option Event
}.

(** The numeric columns of the joined frame the function reads, by name. *)
Definition column (name : string) (r : AsofRow) : cell :=
  if String.eqb name "time_seconds" then of_Q (time_seconds (a_clr r))
  else if String.eqb name "team_id_clr" then of_Z (team_id (a_clr r))
  else if String.eqb name "team_id_shot" then
         match a_shot r with Some s => of_Z (team_id s) | None => nan end
  else nan.

Definition time_leb (a b : Event) : bool :=
  Qle_bool (time_seconds a) (time_seconds b).

Definition sort_by_time (l : list Event) : list Event := isort time_leb l.

(** [direction="forward", allow_exact_matches=True]: the first row of the
    time-sorted right frame whose time is at or after the left row's. *)
Definition merge_asof_forward (left right : list Event) : list AsofRow :=
  map (fun c => mkAsof c (find (fun s => time_leb c s) right)) left.

Definition notna (c : cell) : bool :=
  match c with Some _ => true | None => false end.

Definition dropna (subset : list string) (m : list AsofRow) : list AsofRow :=
  filter (fun r => forallb (fun c => notna (column c r)) subset) m.

Record Flagged := mkFlagged {
  f_row : AsofRow;
  time_diff : cell;
  shot_within_10s : bool
}.

Definition team_col : string :=
  if isin "team_id_shot" m_columns then "team_id_shot" else "team_id".
Definition time_col_shot : string :=
  if isin "time_seconds_shot" m_columns then "time_seconds_shot"
  else "time_seconds".
Definition time_col_clr : string :=
  if isin "time_seconds_clr" m_columns then "time_seconds_clr"
  else "time_seconds".
Definition team_id_clr_col : string :=
  if isin "team_id_clr" m_columns then "team_id_clr" else "team_id".

Definition flag (r : AsofRow) : Flagged :=
  let td := sub (column time_col_shot r) (column time_col_clr r) in
  mkFlagged r td
    (le td 10 && ge td 0
     && ne (column team_col r) (column team_id_clr_col r)).

Definition in_group (g : Z * Z) (e : Event) : bool :=
  (game_id e =? fst g) && (period_id e =? snd g).

(** The body of the loop over the (game_id, period_id) groups. *)
Definition group_result (clr_group shots : list Event) (g : Z * Z)
  : list Flagged :=
  let shots_group := filter (in_group g) shots in
  if (List.length shots_group =? 0)%nat then [] else
  let clr_group := sort_by_time clr_group in
  let shots_group := sort_by_time shots_group in
  let m := merge_asof_forward clr_group shots_group in
  let m := dropna [time_col_shot; team_col] m in
  if (List.length m =? 0)%nat then [] else
  if isin time_col_clr m_columns && isin time_col_shot m_columns
  then map flag m
  else [].

Definition group_dec (a b : Z * Z) : {a = b} + {a <> b}.
Proof. decide equality; apply Z.eq_dec. Defined.

Definition group_of (e : Event) : Z * Z := (game_id e, period_id e).

Definition empty_panic : Table := mkTable ["clearance"; "concede_shot10"] [].

Definition clr_key (f : Flagged) : Key := key_of (a_clr (f_row f)).

Definition panic_results (df : list Event) : list Flagged :=
  let clr := filter is_clearance df in
  let shots := filter is_shot df in
  flat_map (fun g => group_result (filter (in_group g) clr) shots g)
           (nodup group_dec (map group_of clr)).

Definition calculate_clearance_panic (df : list Event) : Table :=
  let clr := filter is_clearance df in
  let shots := filter is_shot df in
  if (List.length clr =? 0)%nat || (List.length shots =? 0)%nat
  then empty_panic
  else
    let m := panic_results df in
    if (List.length m =? 0)%nat then empty_panic
    else if negb (isin "player_id_clr" m_columns) then empty_panic
    else groupby_agg clr_key m
           [("clearance", fun g => of_nat (List.length g));
            ("concede_shot10", fun g => of_nat (count shot_within_10s g))].

(** ** The resolved column names *)

Lemma resolved_columns :
  team_col = "team_id_shot" /\ time_col_shot = "time_seconds" /\
  time_col_clr = "time_seconds" /\ team_id_clr_col = "team_id_clr" /\
  isin "time_seconds_shot" m_columns = false /\
  isin "player_id_clr" m_columns = true.
Proof. vm_compute. repeat split; reflexivity. Qed.

Lemma leb_int a b :
  num_eqb (Fin (inject_Z a)) (Fin (inject_Z b)) = (a =? b).
Proof.
  unfold num_eqb; simpl. apply eq_true_iff_eq.
  rewrite andb_true_iff, !Qle_bool_iff, <- !Zle_Qle, Z.eqb_eq. lia.
Qed.

(** The time difference of a joined row is the clearance time minus
    itself: the flag only compares the two teams. *)
Lemma flag_ignores_time c s :
  shot_within_10s (flag (mkAsof c (Some s)))
  = negb (team_id s =? team_id c).
Proof.
  unfold flag, shot_within_10s.
  destruct resolved_columns as [-> [-> [-> [-> _]]]].
  unfold column; simpl. rewrite leb_int.
  assert (A : Qle_bool (time_seconds c - time_seconds c) 10 = true)
    by (apply Qle_bool_iff; lra).
  assert (B : Qle_bool 0 (time_seconds c - time_seconds c) = true)
    by (apply Qle_bool_iff; lra).
  rewrite A, B. reflexivity.
Qed.

(** ** The scenarios of the specification *)

Definition clearance_at (t : Q) : Event :=
  Aggregate.ev 7 "Kim" "Ulsan" 1 100 1 t 1 "Clearance" "Successful".
Definition shot_at (team : Z) (t : Q) : Event :=
  Aggregate.ev 9 "Lee" "Jeonbuk" team 100 1 t 2 "Shot" "Off Target".

Definition concede_shot10 (df : list Event) : list cell :=
  map (fun r => get r "concede_shot10") (rows (calculate_clearance_panic df)).

Example opposing_shot_after_8s_counts :
  concede_shot10 [clearance_at 10; shot_at 2 18] = [of_nat 1].
Proof. vm_compute. reflexivity. Qed.

Example own_shot_after_5s_does_not_count :
  concede_shot10 [clearance_at 10; shot_at 1 15] = [of_nat 0].
Proof. vm_compute. reflexivity. Qed.

(** C1, at the failing input: a clearance at t = 10 by team 1 and the
    next shot, by team 2, at t = 21.  The as-of join keeps a single
    time_seconds column, so the code subtracts the clearance time from
    itself, finds 0 and counts the shot, 11 seconds late, as conceded. *)
Theorem opposing_shot_after_11s_is_counted :
  time_col_shot = time_col_clr /\
  map (fun f => (time_diff f, shot_within_10s f))
      (panic_results [clearance_at 10; shot_at 2 21])
  = [(of_Q (10 - 10), true)] /\
  concede_shot10 [clearance_at 10; shot_at 2 21] = [of_nat 1].
Proof. vm_compute. repeat split; reflexivity. Qed.

(** ** Which clearances are counted *)

(** Some shot of the same game and period happens at or after the
    clearance. *)
Definition has_later_shot (df : list Event) (e : Event) : bool :=
  existsb (fun s => is_shot s && in_group (group_of e) s && time_leb e s) df.

Lemma time_leb_total a b : time_leb a b = false -> time_leb b a = true.
Proof.
  unfold time_leb. intros H. apply Qle_bool_iff.
  destruct (Qlt_le_dec (time_seconds a) (time_seconds b)) as [L|L];
    [|exact L].
  apply Qlt_le_weak, Qle_bool_iff in L. congruence.
Qed.

Lemma dropna_keeps_matched m :
  dropna [time_col_shot; team_col] m = filter (fun r => is_some (a_shot r)) m.
Proof.
  destruct resolved_columns as [-> [-> _]].
  unfold dropna. apply filter_ext. intros [c [s|]]; reflexivity.
Qed.

(** The rows a group contributes: the clearances of the group, in time
    order, that found a shot. *)
Lemma group_result_rows cg shots g :
  group_result cg shots g =
  map flag
      (filter (fun r => is_some (a_shot r))
              (merge_asof_forward
                 (sort_by_time cg)
                 (sort_by_time (filter (in_group g) shots)))).
Proof.
  unfold group_result. rewrite dropna_keeps_matched.
  destruct (filter (in_group g) shots) as [|s0 sg] eqn:F.
  - simpl. unfold merge_asof_forward. simpl.
    induction (sort_by_time cg) as [|c l IH]; simpl; auto.
  - change (List.length (s0 :: sg) =? 0)%nat with false. cbv iota.
    destruct resolved_columns as [_ [E1 [E2 _]]].
    rewrite E1, E2.
    change (isin "time_seconds" m_columns && isin "time_seconds" m_columns)
      with true. cbv iota.
    destruct (filter _ (merge_asof_forward _ _)); reflexivity.
Qed.

Lemma count_group k cg shots g :
  count (fun f => key_eqb (clr_key f) k) (group_result cg shots g) =
  count (fun c => existsb (fun s => in_group g s && time_leb c s) shots
                  && key_eqb (key_of c) k) cg.
Proof.
  rewrite group_result_rows, count_map, count_filter.
  unfold merge_asof_forward. rewrite count_map. simpl.
  rewrite <- (count_perm _ _ _ (isort_perm time_leb cg)).
  apply count_ext. intros c _. f_equal.
  rewrite find_is_some.
  unfold sort_by_time.
  rewrite <- (existsb_perm _ _ _ (isort_perm time_leb _)).
  apply existsb_filter.
Qed.

Definition group_eqb (a b : Z * Z) : bool :=
  if group_dec a b then true else false.

Lemma in_group_eqb g e : in_group g e = group_eqb (group_of e) g.
Proof.
  unfold in_group, group_eqb, group_of. destruct g as [a b].
  cbn [fst snd].
  destruct (group_dec (game_id e, period_id e) (a, b)) as [E|N].
  - inversion E; subst. rewrite !Z.eqb_refl. reflexivity.
  - destruct (Z.eqb_spec (game_id e) a), (Z.eqb_spec (period_id e) b);
      subst; cbn [andb]; try reflexivity. congruence.
Qed.

Lemma sum_indicator (x : Z * Z) gs :
  NoDup gs ->
  list_sum (map (fun g => if group_eqb x g then 1 else 0)%nat gs)
  = if in_dec group_dec x gs then 1%nat else 0%nat.
Proof.
  unfold group_eqb.
  induction gs as [|g gs IH]; intros N; [reflexivity|].
  inversion N as [|? ? Ng N']; subst. simpl. rewrite (IH N').
  destruct (group_dec x g) as [E|E], (group_dec g x) as [E'|E'];
    try congruence; subst;
    destruct (in_dec group_dec _ gs); try reflexivity; contradiction.
Qed.

(** Counting group by group is counting once. *)
Lemma count_by_groups (q : Event -> bool) l gs :
  NoDup gs -> (forall e, In e l -> In (group_of e) gs) ->
  list_sum (map (fun g => count (fun e => in_group g e && q e) l) gs)
  = count q l.
Proof.
  intros N. induction l as [|e l IH]; intros H.
  - simpl. clear. induction gs; simpl; auto.
  - rewrite count_cons, <- IH by (intros; apply H; right; assumption).
    transitivity
      (list_sum (map (fun g => (if group_eqb (group_of e) g then
                                  if q e then 1 else 0 else 0)%nat) gs)
       + list_sum (map (fun g => count (fun e => in_group g e && q e) l) gs))%nat.
    + clear. induction gs as [|g gs IHg]; [reflexivity|].
      simpl map. simpl list_sum. rewrite IHg, count_cons, in_group_eqb.
      destruct (group_eqb (group_of e) g), (q e); simpl; lia.
    + f_equal. destruct (q e).
      * rewrite (sum_indicator (group_of e) gs N).
        destruct (in_dec group_dec (group_of e) gs) as [_|X];
          [reflexivity|]. exfalso. apply X, H. left; reflexivity.
      * clear. induction gs as [|g gs IHg]; [reflexivity|].
        simpl. rewrite IHg. destruct (group_eqb _ _); reflexivity.
Qed.

Lemma count_panic_results df k :
  count (fun f => key_eqb (clr_key f) k) (panic_results df) =
  count (fun e => is_clearance e && key_eqb (key_of e) k
                  && has_later_shot df e) df.
Proof.
  unfold panic_results. rewrite count_flat_map.
  set (clr := filter is_clearance df).
  transitivity
    (list_sum
       (map (fun g =>
               count (fun e => in_group g e
                               && (has_later_shot df e
                                   && key_eqb (key_of e) k)) clr)
            (nodup group_dec (map group_of clr)))).
  - f_equal. apply map_ext. intros g.
    rewrite count_group, count_filter. apply count_ext. intros e _.
    destruct (in_group g e) eqn:G; [|reflexivity]. simpl. f_equal.
    unfold has_later_shot. rewrite existsb_filter.
    apply existsb_pointwise. intros s.
    rewrite in_group_eqb in G. unfold group_eqb in G.
    destruct (group_dec (group_of e) g) as [<-|]; [|discriminate].
    rewrite andb_assoc. reflexivity.
  - rewrite count_by_groups.
    + unfold clr. rewrite count_filter. apply count_ext. intros e _.
      destruct (is_clearance e), (has_later_shot df e),
        (key_eqb (key_of e) k); reflexivity.
    + apply NoDup_nodup.
    + intros e He. apply nodup_In, in_map, He.
Qed.

Lemma panic_table_rows df r :
  In r (rows (calculate_clearance_panic df)) ->
  In r (rows (groupby_agg clr_key (panic_results df)
           [("clearance", fun g => of_nat (List.length g));
            ("concede_shot10", fun g => of_nat (count shot_within_10s g))])).
Proof.
  unfold calculate_clearance_panic.
  destruct (_ || _); [intros []|].
  destruct (List.length (panic_results df) =? 0)%nat; [intros []|].
  destruct (negb _); [intros []|]. auto.
Qed.

Definition counted_clearances (df : list Event) (k : Key) : nat :=
  count (fun e => is_clearance e && key_eqb (key_of e) k
                  && has_later_shot df e) df.

Definition clearance_attempts (df : list Event) (k : Key) : nat :=
  count (fun e => is_clearance e && key_eqb (key_of e) k) df.

(** Two clearances of one player, the second after the only shot. *)
Definition late_clearance_log : list Event :=
  [clearance_at 10; shot_at 2 18;
   Aggregate.ev 7 "Kim" "Ulsan" 1 100 1 50 3 "Clearance" "Successful"].

(** C10.  In the clearance-panic table a player's 'clearance' cell is
    the number of the player's clearances for which some shot of the
    same (game_id, period_id) happens at or after the clearance; the
    other clearances (after the last shot of the period, or in a period
    without shots) are not counted, and there is an event log in which
    this count (1) is strictly below the player's clearance_attempt (2)
    of the main aggregator. *)
Theorem clearance_count_needs_a_later_shot :
  (forall df r,
      In r (rows (calculate_clearance_panic df)) ->
      get r "clearance" = of_nat (counted_clearances df (key r)) /\
      (0 < counted_clearances df (key r))%nat /\
      (counted_clearances df (key r) <= clearance_attempts df (key r))%nat) /\
  (exists df r a,
      In r (rows (calculate_clearance_panic df)) /\
      In a (rows (Aggregate.aggregate_player_stats df)) /\
      key a = key r /\
      get r "clearance" = of_nat 1 /\
      get a "clearance_attempt" = of_nat 2).
Proof.
  split.
  - intros df r Hr. apply panic_table_rows in Hr.
    assert (G : get r "clearance"
                = of_nat (count (fun f => key_eqb (clr_key f) (key r))
                                (panic_results df))).
    { rewrite (groupby_agg_get clr_key _ _ r "clearance"
                 (fun g => of_nat (List.length g)) Hr eq_refl).
      reflexivity. }
    assert (K : has_key (key r) (groupby_agg clr_key (panic_results df)
           [("clearance", fun g => of_nat (List.length g));
            ("concede_shot10", fun g => of_nat (count shot_within_10s g))])
                = true) by (apply has_key_In, in_map, Hr).
    apply groupby_agg_has_key in K. destruct K as [f [Hf Kf]].
    rewrite count_panic_results in G. fold (counted_clearances df (key r)) in G.
    split; [exact G|]. split.
    + unfold counted_clearances. rewrite <- count_panic_results.
      apply count_pos_iff. exists f. split; [exact Hf|].
      apply key_eqb_eq, Kf.
    + unfold counted_clearances, clearance_attempts.
      rewrite <- (count_filter (has_later_shot df)
                    (fun e => is_clearance e && key_eqb (key_of e) (key r))).
      etransitivity; [apply count_le_length|]. apply Nat.le_refl.
  - exists late_clearance_log.
    eexists. eexists.
    split; [left; reflexivity|].
    split; [left; reflexivity|].
    vm_compute. repeat split; reflexivity.
Qed.

Lemma clearance_count_needs_a_later_shot_witness :
  let df := late_clearance_log in
  let r := mkRow (mkKey 7 "Kim" "Ulsan")
                 [("clearance", of_nat 1); ("concede_shot10", of_nat 1)] in
  In r (rows (calculate_clearance_panic df)) /\
  get r "clearance" = of_nat (counted_clearances df (key r)) /\
  (0 < counted_clearances df (key r))%nat /\
  (counted_clearances df (key r) <= clearance_attempts df (key r))%nat.
Proof.
  assert (H : In (mkRow (mkKey 7 "Kim" "Ulsan")
                    [("clearance", of_nat 1); ("concede_shot10", of_nat 1)])
                 (rows (calculate_clearance_panic late_clearance_log)))
    by (left; vm_compute; reflexivity).
  split; [exact H|].
  exact (proj1 clearance_count_needs_a_later_shot late_clearance_log _ H).
Defined.

End ClearancePanic.

(* ================================================================== *)
(** * aggregate.py: calculate_second_half_drop *)
(* ================================================================== *)

Module SecondHalfDrop.
Import Frame Joins.

Definition is_def_action (e : Event) : bool :=
  isin (type_name e) Config.DEF_ACTIONS.

Definition is_def_fail (e : Event) : bool :=
  String.eqb (result_name e) "Unsuccessful" || String.eqb (type_name e) "Error".

(** A row of [g]: one (player, period_id) group with its counts and
    fail_rate = def_fails / def_actions. *)
Record PeriodRow := mkPeriodRow {
  pr_key : Key;
  pr_period : Z;
  pr_def_actions : nat;
  pr_def_fails : nat;
  fail_rate : cell
}.

Definition pair_dec (a b : Key * Z) : {a = b} + {a <> b}.
Proof. decide equality; [apply Z.eq_dec | apply Key_eq_dec]. Defined.

Definition in_period_group (k : Key) (p : Z) (e : Event) : bool :=
  key_eqb (key_of e) k && (period_id e =? p).

Definition period_row (da : list Event) (kp : Key * Z) : PeriodRow :=
  let grp := filter (in_period_group (fst kp) (snd kp)) da in
  let n := List.length grp in
  let f := count is_def_fail grp in
  mkPeriodRow (fst kp) (snd kp) n f (div (of_nat f) (of_nat n)).

Definition group_by_player_period (da : list Event) : list PeriodRow :=
  map (period_row da)
      (nodup pair_dec (map (fun e : Event => (key_of e, period_id e)) da)).

(** [pivot_table(index=player, columns="period_id", values="fail_rate",
    fill_value=0)]: the columns are the period ids that occur; a cell is
    the mean of the fail rates of its (player, period) group, a single
    value, or 0 when the player has no row for that period. *)
Definition pivot_columns (g : list PeriodRow) : list Z :=
  nodup Z.eq_dec (map pr_period g).

Definition pivot_index (g : list PeriodRow) : list Key :=
  nodup Key_eq_dec (map pr_key g).

Definition pivot_cell (g : list PeriodRow) (k : Key) (p : Z) : cell :=
  match find (fun r => key_eqb (pr_key r) k && (pr_period r =? p)) g with
  | Some r => fail_rate r
  | None => of_Q 0
  end.

Definition period_cols (g : list PeriodRow) : list Z :=
  filter (fun c => existsb (Z.eqb c) [1; 2]) (pivot_columns g).

Definition empty_frame : Table := mkTable [] [].

(** The result carries the three rate columns and total_actions; the
    pivot's own columns, labelled by the period numbers, are left out of
    the model (no later stage reads them). *)
Definition calculate_second_half_drop (df : list Event) : Table :=
  let da := filter is_def_action df in
  if (List.length da =? 0)%nat then empty_frame else
  let g := group_by_player_period da in
  if (List.length (period_cols g) =? 2)%nat then
    mkTable
      ["first_half_rate"; "second_half_rate"; "second_half_drop";
       "total_actions"]
      (map (fun k =>
              let first := pivot_cell g k 1 in
              let second := pivot_cell g k 2 in
              mkRow k
                [("first_half_rate", first);
                 ("second_half_rate", second);
                 ("second_half_drop", sub second first);
                 ("total_actions",
                  of_nat (count (fun e : Event => key_eqb (key_of e) k) da))])
           (pivot_index g))
  else empty_frame.

(** ** The rate of one half, counted on the event log *)























(** A player active in the first half only, in a season with both
    halves: the drop is measured against a zero second-half rate. *)
Definition both_halves : list Event :=
  [Aggregate.ev 7 "Kim" "Ulsan" 1 100 1 10 1 "Tackle" "Unsuccessful";
   Aggregate.ev 7 "Kim" "Ulsan" 1 100 1 20 2 "Tackle" "Successful";
   Aggregate.ev 9 "Lee" "Jeonbuk" 2 100 2 30 3 "Block" "Successful"].


Example first_half_only_player_drop :
  map (fun r => (get r "first_half_rate", get r "second_half_rate",
                 get r "second_half_drop"))
      (rows (calculate_second_half_drop both_halves))
  = [(of_Q (1 / 2), of_Q 0, of_Q (0 - 1 / 2));
     (of_Q 0, of_Q (0 / 1), of_Q (0 / 1 - 0))].
Proof. vm_compute. reflexivity. Qed.

End SecondHalfDrop.


(* ================================================================== *)
(** * Ranking ([Series.rank]) *)
(* ================================================================== *)

(** [Series.rank] sorts the values and gives each value the positions
    1, 2, ... it occupies in the sorted order; tied values occupy a block
    of positions, and the method chooses one number for the block: the
    least position ([method="min"]) or the mean of the positions
    ([method="average"], the default). *)

Fixpoint positions_from {T : Type} (i : nat) (p : T -> bool) (s : list T)
  : list nat :=
  match s with
  | [] => []
  | y :: r => (if p y then [i] else []) ++ positions_from (S i) p r
  end.

Definition tied {T : Type} (leb : T -> T -> bool) (x y : T) : bool :=
  leb x y && leb y x.

Definition sort_order {T : Type} (leb : T -> T -> bool) (ascending : bool)
  : T -> T -> bool :=
  if ascending then leb else fun a b => leb b a.

(** Positions of the values tied with [x] in the sorted series. *)
Definition tie_positions {T : Type} (leb : T -> T -> bool) (ascending : bool)
           (xs : list T) (x : T) : list nat :=
  positions_from 1 (tied leb x) (isort (sort_order leb ascending) xs).

Definition list_min (l : list nat) : nat :=
  match l with
  | [] => 0%nat
  | p :: ps => fold_left Nat.min ps p
  end.

(** A natural number as a rational. *)
Definition nq (n : nat) : Q := inject_Z (Z.of_nat n).

Definition rank_min {T : Type} (leb : T -> T -> bool) (ascending : bool)
           (xs : list T) (x : T) : nat :=
  list_min (tie_positions leb ascending xs x).

Definition rank_average {T : Type} (leb : T -> T -> bool) (ascending : bool)
           (xs : list T) (x : T) : Q :=
  let ps := tie_positions leb ascending xs x in
  (nq (list_sum ps) / nq (List.length ps))%Q.

Lemma positions_from_ext {T} (p q : T -> bool) s i :
  (forall y, p y = q y) -> positions_from i p s = positions_from i q s.
Proof.
  intros E. revert i. induction s as [|y r IH]; intros i; [reflexivity|].
  simpl. rewrite E, IH. reflexivity.
Qed.

Section Ranking.
Context {T : Type}.
Variable leb : T -> T -> bool.
Hypothesis leb_total : forall a b, leb a b = false -> leb b a = true.
Hypothesis leb_trans :
  forall a b c, leb a b = true -> leb b c = true -> leb a c = true.

Lemma leb_refl a : leb a a = true.
Proof using leb_total.
  destruct (leb a a) eqn:E; [reflexivity|].
  pose proof (leb_total a a E). congruence.
Qed.

Lemma ordered_head y r :
  ordered leb (y :: r) -> forall z, In z r -> leb y z = true.
Proof using leb_trans.
  revert y. induction r as [|w r IH]; intros y O z Hz; [destruct Hz|].
  destruct O as [Hyw Or]. destruct Hz as [->|Hz]; [exact Hyw|].
  apply (leb_trans y w z Hyw). apply IH; assumption.
Qed.

(** In a sorted series the values tied with [x] occupy consecutive
    positions, right after the values strictly before [x]. *)
Lemma tied_block s : forall i x,
  ordered leb s ->
  positions_from i (tied leb x) s
  = seq (i + count (fun y => negb (leb x y)) s) (count (tied leb x) s).
Proof using leb_total leb_trans.
  induction s as [|y r IH]; intros i x O.
  - reflexivity.
  - assert (Or : ordered leb r) by (destruct O; assumption).
    pose proof (ordered_head y r O) as Hd.
    simpl positions_from. rewrite (IH (S i) x Or), !count_cons.
    unfold tied at 1 3.
    destruct (leb x y) eqn:Exy; simpl negb.
    + assert (L0 : count (fun z => negb (leb x z)) r = 0%nat).
      { apply count_zero_iff. intros z Hz.
        rewrite (leb_trans x y z Exy (Hd z Hz)). reflexivity. }
      rewrite L0. destruct (leb y x) eqn:Eyx; simpl andb.
      * rewrite !Nat.add_0_r. reflexivity.
      * assert (E0 : count (tied leb x) r = 0%nat).
        { apply count_zero_iff. intros z Hz. unfold tied.
          destruct (leb z x) eqn:Ezx; [|apply andb_false_r].
          rewrite (leb_trans y z x (Hd z Hz) Ezx) in Eyx. discriminate. }
        rewrite E0. reflexivity.
    + simpl andb. simpl app. f_equal; simpl; lia.
Qed.

Lemma count_le_split x l :
  count (fun y => leb y x) l
  = (count (fun y => negb (leb x y)) l + count (tied leb x) l)%nat.
Proof using leb_total.
  induction l as [|y l IH]; [reflexivity|].
  rewrite !count_cons, IH. unfold tied.
  destruct (leb x y) eqn:A, (leb y x) eqn:B; simpl; try lia.
  rewrite (leb_total x y A) in B. discriminate.
Qed.

Lemma tied_self_counts x l :
  In x l -> (1 <= count (tied leb x) l)%nat.
Proof using leb_total.
  intros H. apply count_pos_iff. exists x. split; [exact H|].
  unfold tied. rewrite leb_refl. reflexivity.
Qed.
End Ranking.

Lemma list_min_seq a n : (0 < n)%nat -> list_min (seq a n) = a.
Proof.
  destruct n as [|n]; [lia|]. intros _. simpl.
  assert (G : forall m b c, (b <= c)%nat -> fold_left Nat.min (seq c m) b = b).
  { induction m as [|m IH]; intros b c L; [reflexivity|].
    simpl. rewrite (Nat.min_l b c L). apply IH. lia. }
  apply G. lia.
Qed.

Lemma list_sum_seq a n :
  (2 * list_sum (seq a n) + n = n * (2 * a + n))%nat.
Proof.
  revert a. induction n as [|n IH]; intros a; [reflexivity|].
  simpl seq. simpl list_sum. specialize (IH (S a)). nia.
Qed.

Lemma nq_add a b : (nq (a + b) == nq a + nq b)%Q.
Proof. unfold nq. rewrite Nat2Z.inj_add, inject_Z_plus. reflexivity. Qed.

Lemma nq_mul a b : (nq (a * b) == nq a * nq b)%Q.
Proof. unfold nq. rewrite Nat2Z.inj_mul, inject_Z_mult. reflexivity. Qed.

Lemma nq_nonneg a : (0 <= nq a)%Q.
Proof. unfold nq. rewrite <- (Zle_Qle 0). lia. Qed.

Lemma nq_le a b : (a <= b)%nat -> (nq a <= nq b)%Q.
Proof. intros H. unfold nq. rewrite <- Zle_Qle. lia. Qed.

Lemma nq_pos a : (0 < a)%nat -> (0 < nq a)%Q.
Proof. intros H. unfold nq. rewrite <- (Zlt_Qlt 0). lia. Qed.

(** Mean of the block of positions a+1 .. a+n. *)
Lemma mean_of_block a n :
  (0 < n)%nat ->
  (nq (list_sum (seq (1 + a) n)) / nq n == nq a + (nq n + 1) / 2)%Q.
Proof.
  intros Hn.
  pose proof (list_sum_seq (1 + a) n) as E.
  assert (Eq : (nq (2 * list_sum (seq (1 + a) n) + n)
                == nq (n * (2 * (1 + a) + n)))%Q) by (rewrite E; reflexivity).
  rewrite !nq_add, !nq_mul, !nq_add, !nq_mul, !nq_add in Eq.
  change (nq 2) with 2%Q in Eq. change (nq 1) with 1%Q in Eq.
  pose proof (nq_pos n Hn) as Pn.
  set (s := nq (list_sum (seq (1 + a) n))) in *.
  set (e := nq n) in *. set (l := nq a) in *.
  assert (S : (s == e * (2 * l + e + 1) / 2)%Q).
  { field_simplify. field_simplify in Eq.
    apply Qmult_inj_r with (z := 2%Q); [lra|].
    field_simplify. lra. }
  rewrite S. field. lra.
Qed.

Section RankSpecs.
Context {T : Type}.
Variable leb : T -> T -> bool.
Hypothesis leb_total : forall a b, leb a b = false -> leb b a = true.
Hypothesis leb_trans :
  forall a b c, leb a b = true -> leb b c = true -> leb a c = true.

Let geb : T -> T -> bool := fun a b => leb b a.

Lemma geb_total a b : geb a b = false -> geb b a = true.
Proof using leb_total. unfold geb. apply leb_total. Qed.

Lemma geb_trans a b c : geb a b = true -> geb b c = true -> geb a c = true.
Proof using leb_trans. unfold geb. intros H1 H2. exact (leb_trans c b a H2 H1). Qed.

Lemma tie_positions_asc xs x :
  tie_positions leb true xs x
  = seq (1 + count (fun y => negb (leb x y)) xs) (count (tied leb x) xs).
Proof using leb_total leb_trans.
  unfold tie_positions, sort_order.
  rewrite (tied_block leb leb_total leb_trans _ 1 x
             (isort_ordered leb leb_total xs)).
  rewrite <- !(count_perm _ _ _ (isort_perm leb xs)). reflexivity.
Qed.

Lemma tie_positions_desc xs x :
  tie_positions leb false xs x
  = seq (1 + count (fun y => negb (leb y x)) xs) (count (tied leb x) xs).
Proof using leb_total leb_trans.
  unfold tie_positions, sort_order.
  change (isort (fun a b : T => leb b a) xs) with (isort geb xs).
  rewrite (positions_from_ext (tied leb x) (tied geb x))
    by (intros y; unfold tied, geb; apply andb_comm).
  rewrite (tied_block geb geb_total geb_trans _ 1 x
             (isort_ordered geb geb_total xs)).
  rewrite <- !(count_perm _ _ _ (isort_perm geb xs)).
  f_equal. apply count_ext. intros y _. unfold tied, geb. apply andb_comm.
Qed.

(** [rank(ascending=False, method="min")] is competition ranking: one
    more than the number of strictly greater values. *)
Lemma rank_min_desc xs x :
  In x xs ->
  rank_min leb false xs x = (1 + count (fun y => negb (leb y x)) xs)%nat.
Proof using leb_total leb_trans.
  intros H. unfold rank_min. rewrite tie_positions_desc.
  apply list_min_seq. apply (tied_self_counts leb leb_total x xs H).
Qed.

(** [rank()] (ascending, average): the number of strictly smaller values
    plus the mean position inside the block of ties. *)
Lemma rank_average_asc xs x :
  In x xs ->
  (rank_average leb true xs x
   == nq (count (fun y => negb (leb x y)) xs)
      + (nq (count (tied leb x) xs) + 1) / 2)%Q.
Proof using leb_total leb_trans.
  intros H. unfold rank_average. rewrite tie_positions_asc.
  rewrite length_seq. apply mean_of_block.
  apply (tied_self_counts leb leb_total x xs H).
Qed.
End RankSpecs.

(* ================================================================== *)
(** * aggregate.py: aggregate_attack_stats *)
(* ================================================================== *)

Module AttackStats.
Import Frame Joins.

Definition type_is (s : string) (e : Event) : bool :=
  String.eqb (type_name e) s.

Definition player_key (e : Event) : Key := key_of e.

(** [if len(sub) > 0: results.append(table)]. *)
Definition when_nonempty (sub : list Event) (t : Table) : list Table :=
  if (0 <? List.length sub)%nat then [t] else [].

Definition agg_count (g : list Event) : cell := of_nat (List.length g).
Definition agg_sum (flag : Event -> bool) (g : list Event) : cell :=
  of_nat (count flag g).

Definition in_penalty_box (e : Event) : bool :=
  Qle_bool 88.5 (start_x e) && Qle_bool 13.84 (start_y e)
  && Qle_bool (start_y e) 54.16.

(** [df.groupby(key)["game_id"].nunique()], as the column "games". *)
Definition player_games (df : list Event) : Table :=
  groupby_agg player_key df
    [("games",
      fun g => of_nat (List.length (nodup Z.eq_dec (map (fun e : Event => game_id e) g))))].

Definition attack_results (df : list Event) : list Table :=
  let shots := filter (fun e : Event => isin (type_name e) ["Shot"; "Shot_Freekick"]) df in
  let penalty_box_shots := filter in_penalty_box shots in
  let offsides := filter (type_is "Offside") df in
  let pass_received := filter (type_is "Pass Received") df in
  let pass_given := filter (type_is "Pass") df in
  let crosses := filter (type_is "Cross") df in
  let attack_duels := filter (type_is "Duel") df in
  when_nonempty shots
    (groupby_agg player_key shots
       [("total_shots", agg_count);
        ("off_target_shots",
         agg_sum (fun e : Event => String.eqb (result_name e) "Off Target"))])
  ++ when_nonempty penalty_box_shots
    (groupby_agg player_key penalty_box_shots
       [("penalty_box_shots", agg_count);
        ("penalty_box_miss",
         agg_sum (fun e : Event => negb (isin (result_name e) ["Goal"; "On Target"])))])
  ++ when_nonempty offsides
    (groupby_agg player_key offsides [("offsides", agg_count)])
  ++ when_nonempty pass_received
    (groupby_agg player_key pass_received [("pass_received", agg_count)])
  ++ when_nonempty pass_given
    (groupby_agg player_key pass_given [("pass_given", agg_count)])
  ++ when_nonempty crosses
    (groupby_agg player_key crosses
       [("total_crosses", agg_count);
        ("cross_fail",
         fun g => sub (agg_count g)
                      (agg_sum (fun e : Event => String.eqb (result_name e) "Successful") g))])
  ++ when_nonempty attack_duels
    (groupby_agg player_key attack_duels
       [("total_duels_attack", agg_count);
        ("duel_fail_attack", agg_sum is_fail)])
  ++ when_nonempty attack_duels
    (groupby_agg player_key (filter is_fail attack_duels)
       [("aerial_fail", agg_count)]).

(** [if num in columns and "games" in columns: t[name] = t[num] / t["games"]]. *)
Definition per_game (name num : string) (t : Table) : Table :=
  if has_col num t && has_col "games" t
  then assign name (fun r => div (get r num) (get r "games")) t
  else t.

(** [np.where(t[den] > 0, t[num] / t[den], 0)] at one row. *)
Definition guarded_ratio (num den : string) (r : Row) : cell :=
  np_where (gt (get r den) 0) (div (get r num) (get r den)) (of_Q 0).

Definition receive_to_give (t : Table) : Table :=
  if has_col "pass_received" t && has_col "pass_given" t
  then assign "receive_to_give_ratio"
              (guarded_ratio "pass_received" "pass_given") t
  else t.

Definition aggregate_attack_stats (df : list Event) : Table :=
  match attack_results df with
  | [] => mkTable [] []
  | r0 :: rs =>
      let agg_df := fold_left merge_outer rs r0 in
      let agg_df := merge_left_on key_eqb agg_df (player_games df) ["games"] in
      let agg_df :=
        assign "games" (fun r => Some (fillna (Fin 1) (get r "games"))) agg_df in
      let agg_df := fillna_all agg_df in
      let agg_df := per_game "off_target_per_game" "off_target_shots" agg_df in
      let agg_df := per_game "penalty_box_miss_per_game" "penalty_box_miss" agg_df in
      let agg_df := per_game "offside_per_game" "offsides" agg_df in
      let agg_df := receive_to_give agg_df in
      let agg_df := per_game "cross_fail_per_game" "cross_fail" agg_df in
      let agg_df := per_game "duel_fail_per_game_attack" "duel_fail_attack" agg_df in
      per_game "aerial_fail_per_game" "aerial_fail" agg_df
  end.

End AttackStats.

(* ================================================================== *)
(** * awards_engine.py *)
(* ================================================================== *)

Module AwardsEngine.
Import Frame Joins.

(** An entry of the award configuration (the fields the engine reads);
    [min_attempts] is optional and read with [.get("min_attempts", 0)]. *)
Record Award := mkAward {
  award_id : string;
  metric : string;
  min_attempts : option Q
}.

(** config.py: AWARDS. *)
Definition AWARDS : list Award :=
  [mkAward "tackle_fail" "tackle_fail_rate" (Some 5%Q);
   mkAward "card_per_def" "card_per_def" (Some 10%Q);
   mkAward "danger_foul" "danger_foul_ratio" (Some 3%Q);
   mkAward "clearance_panic" "clearance_panic_rate" (Some 5%Q);
   mkAward "block_fail" "block_fail_rate" (Some 3%Q);
   mkAward "interception_fail" "interception_fail_rate" (Some 5%Q);
   mkAward "duel_fail" "duel_fail_rate" (Some 10%Q);
   mkAward "def_third_turnover" "def_third_turnover_rate" (Some 10%Q);
   mkAward "second_half_drop" "second_half_drop" (Some 20%Q);
   mkAward "cannon_shot" "off_target_per_game" (Some 10%Q);
   mkAward "chicken_chest" "penalty_box_miss_per_game" (Some 5%Q);
   mkAward "offside_line" "offside_per_game" (Some 1%Q);
   mkAward "selfish_player" "receive_to_give_ratio" (Some 50%Q);
   mkAward "cross_fail" "cross_fail_per_game" (Some 10%Q);
   mkAward "duel_loser_attack" "duel_fail_per_game_attack" (Some 20%Q);
   mkAward "aerial_fail" "aerial_fail_per_game" (Some 1%Q)].

(** ** calculate_metrics *)

(** [np.where(stats[den] > 0, stats[num] / stats[den], 0)] at one row. *)
Definition ratio (num den : string) (r : Row) : cell :=
  np_where (gt (get r den) 0) (div (get r num) (get r den)) (of_Q 0).

(** [if den in stats.columns and num in stats.columns: stats[name] = ...]. *)
Definition add_ratio (name num den : string) (stats : Table) : Table :=
  if has_col den stats && has_col num stats
  then assign name (ratio num den) stats
  else stats.

Definition fillna_col (name : string) (stats : Table) : Table :=
  assign name (fun r => Some (fillna (Fin 0) (get r name))) stats.

(** A companion table is used when it is given and has rows. *)
Definition given (t : option Table) : option Table :=
  match t with
  | Some t => if (0 <? List.length (rows t))%nat then Some t else None
  | None => None
  end.

Definition attack_cols : list string :=
  ["off_target_per_game"; "penalty_box_miss_per_game"; "offside_per_game";
   "receive_to_give_ratio"; "cross_fail_per_game";
   "duel_fail_per_game_attack"; "aerial_fail_per_game"].

Definition with_clearance_panic (cp : option Table) (stats : Table) : Table :=
  match given cp with
  | Some cp =>
      let stats := merge_left stats cp ["clearance"; "concede_shot10"] in
      let stats := assign "clearance_panic_rate"
                          (ratio "concede_shot10" "clearance") stats in
      let stats := fillna_col "clearance" stats in
      fillna_col "concede_shot10" stats
  | None => stats
  end.

Definition with_second_half_drop (shd : option Table) (stats : Table) : Table :=
  match given shd with
  | Some shd =>
      let stats := merge_left stats shd
                     ["second_half_drop"; "first_half_rate"; "second_half_rate"] in
      fillna_col "second_half_drop" stats
  | None => stats
  end.

Definition with_def_third_turnover (dtt : option Table) (stats : Table) : Table :=
  match given dtt with
  | Some dtt =>
      let stats := merge_left stats dtt
                     ["def_third_turnover_rate"; "def_third_attempts";
                      "def_third_fails"] in
      fillna_col "def_third_turnover_rate" stats
  | None => stats
  end.

(** The key column player_id is always available, so the list of
    available attack columns is never empty. *)
Definition with_attack_stats (atk : option Table) (stats : Table) : Table :=
  match given atk with
  | Some atk =>
      let available := filter (fun c => has_col c atk) attack_cols in
      let stats := merge_left stats atk available in
      fold_left (fun s col => fillna_col col s) available stats
  | None => stats
  end.

Definition calculate_metrics (player_stats : Table)
           (clearance_panic second_half_drop def_third_turnover attack_stats
            : option Table) : Table :=
  let stats := player_stats in
  let stats := add_ratio "tackle_fail_rate" "tackle_fail" "tackle_attempt" stats in
  let stats := add_ratio "card_per_def" "card_count" "def_actions" stats in
  let stats := add_ratio "danger_foul_ratio" "danger_foul_count" "foul_count" stats in
  let stats := add_ratio "block_fail_rate" "block_fail" "block_attempt" stats in
  let stats := add_ratio "interception_fail_rate" "interception_fail"
                         "interception_attempt" stats in
  let stats := add_ratio "duel_fail_rate" "duel_fail" "duel_attempt" stats in
  let stats := with_clearance_panic clearance_panic stats in
  let stats := with_second_half_drop second_half_drop stats in
  let stats := with_def_third_turnover def_third_turnover stats in
  with_attack_stats attack_stats stats.

(** ** compute_award_scores *)

Record AwardScore := mkAwardScore {
  as_award_id : string;
  as_key : Key;
  score : num;
  rank : nat;
  percentile : Q
}.

Definition attempt_cols : list (string * string) :=
  [("tackle_fail_rate", "tackle_attempt");
   ("block_fail_rate", "block_attempt");
   ("interception_fail_rate", "interception_attempt");
   ("duel_fail_rate", "duel_attempt");
   ("clearance_panic_rate", "clearance");
   ("card_per_def", "def_actions");
   ("danger_foul_ratio", "foul_count");
   ("def_third_turnover_rate", "def_third_attempts");
   ("second_half_drop", "def_actions");
   ("off_target_per_game", "total_shots");
   ("penalty_box_miss_per_game", "penalty_box_shots");
   ("offside_per_game", "offsides");
   ("receive_to_give_ratio", "pass_received");
   ("cross_fail_per_game", "total_crosses");
   ("duel_fail_per_game_attack", "total_duels_attack");
   ("aerial_fail_per_game", "aerial_fail")].

Definition threshold (award : Award) : Q :=
  match min_attempts award with Some m => m | None => 0%Q end.

(** A string is true when it is not empty. *)
Definition truthy (s : string) : bool := negb (String.eqb s "").

(** [filtered]: the rows that pass the minimum-attempts filter. *)
Definition filtered (stats : Table) (award : Award) : list Row :=
  match assoc (metric award) attempt_cols with
  | Some attempt_col =>
      if truthy attempt_col && has_col attempt_col stats
      then filter (fun r => ge (get r attempt_col) (threshold award)) (rows stats)
      else rows stats
  | None => rows stats
  end.

(** [filtered[metric].fillna(0)] at one row. *)
Definition score_of (award : Award) (r : Row) : num :=
  fillna (Fin 0) (get r (metric award)).

(** One row of the award's frame; [scores] is the whole score column. *)
Definition award_row (award : Award) (scores : list num) (r : Row)
  : AwardScore :=
  let s := score_of award r in
  mkAwardScore (award_id award) (key r) s
    (rank_min num_leb false scores s)
    (rank_average num_leb true scores s / nq (List.length scores) * 100)%Q.

(** The body of the loop over the award configurations. *)
Definition award_scores (stats : Table) (award : Award) : list AwardScore :=
  if negb (has_col (metric award) stats) then [] else
  let filtered := filtered stats award in
  if (List.length filtered =? 0)%nat then [] else
  let scores := map (score_of award) filtered in
  map (award_row award scores) filtered.

Definition compute_award_scores (stats : Table) (award_configs : list Award)
  : list AwardScore :=
  flat_map (award_scores stats) award_configs.

(** [get_top_awards] *)
Definition get_top_awards (award_scores : list AwardScore) (top_n : nat)
  : list AwardScore :=
  isort (fun a b =>
           match String.compare (as_award_id a) (as_award_id b) with
           | Lt => true
           | Eq => (rank a <=? rank b)%nat
           | Gt => false
           end)
        (filter (fun a => (rank a <=? top_n)%nat) award_scores).

(** ** The shape of an award's frame *)

Lemma award_scores_rows stats aw :
  has_col (metric aw) stats = true ->
  award_scores stats aw
  = map (award_row aw (map (score_of aw) (filtered stats aw)))
        (filtered stats aw).
Proof.
  intros H. unfold award_scores. rewrite H. cbn [negb].
  destruct (filtered stats aw); reflexivity.
Qed.

Lemma award_scores_skipped stats aw :
  has_col (metric aw) stats = false -> award_scores stats aw = [].
Proof. intros H. unfold award_scores. rewrite H. reflexivity. Qed.

(** Every row of an award's frame is ranked within the score column of
    that frame. *)
Lemma award_scores_self stats aw a :
  In a (award_scores stats aw) ->
  let scores := map score (award_scores stats aw) in
  In (score a) scores /\
  rank a = rank_min num_leb false scores (score a) /\
  percentile a
  = (rank_average num_leb true scores (score a)
     / nq (List.length (award_scores stats aw)) * 100)%Q.
Proof.
  intros H scores.
  assert (Hs : In (score a) scores) by (apply in_map, H).
  split; [exact Hs|].
  destruct (has_col (metric aw) stats) eqn:C;
    [|rewrite (award_scores_skipped stats aw C) in H; destruct H].
  assert (E : scores = map (score_of aw) (filtered stats aw)).
  { unfold scores. rewrite (award_scores_rows stats aw C), map_map.
    reflexivity. }
  assert (N : List.length (award_scores stats aw)
              = List.length (map (score_of aw) (filtered stats aw))).
  { rewrite (award_scores_rows stats aw C), !length_map. reflexivity. }
  rewrite N, E.
  rewrite (award_scores_rows stats aw C) in H.
  apply in_map_iff in H. destruct H as [r [<- _]]. split; reflexivity.
Qed.

Lemma configured_denominators aw :
  In aw AWARDS ->
  exists d, assoc (metric aw) attempt_cols = Some d /\ truthy d = true.
Proof.
  intros H. unfold AWARDS in H.
  repeat (destruct H as [<-|H]; [eexists; split; reflexivity|]).
  destruct H.
Qed.

(** ** The end-to-end scenario *)

Definition tackle_by (pid : Z) (name : string) (aid : Z) (res : string)
  : Event :=
  Aggregate.ev pid name "Ulsan" 1 100 1 10 aid "Tackle" res.

(** X: 5 tackles, 2 failed.  Y: 3 tackles.  Z: 5 tackles, 1 failed. *)
Definition tackle_log : list Event :=
  [tackle_by 1 "X" 1 "Unsuccessful"; tackle_by 1 "X" 2 "Unsuccessful";
   tackle_by 1 "X" 3 "Successful"; tackle_by 1 "X" 4 "Successful";
   tackle_by 1 "X" 5 "Successful";
   tackle_by 2 "Y" 6 "Unsuccessful"; tackle_by 2 "Y" 7 "Successful";
   tackle_by 2 "Y" 8 "Successful";
   tackle_by 3 "Z" 9 "Unsuccessful"; tackle_by 3 "Z" 10 "Successful";
   tackle_by 3 "Z" 11 "Successful"; tackle_by 3 "Z" 12 "Successful";
   tackle_by 3 "Z" 13 "Successful"].

Definition tackle_award : Award :=
  mkAward "tackle_fail" "tackle_fail_rate" (Some 5%Q).

Definition tackle_stats : Table :=
  calculate_metrics (Aggregate.aggregate_player_stats tackle_log)
                    None None None None.

(** The cell holds a value that is at least [m]; a missing value is
    not at least anything. *)
Definition at_least (m : Q) (c : cell) : bool :=
  match c with
  | Some (Fin q) => Qle_bool m q
  | Some PInf => true
  | Some NInf => false
  | None => false
  end.

(** The players whose value in the denominator column [d] is greater
    than or equal to [m]; every player when the table has no column [d]. *)
Definition qualifying (stats : Table) (d : string) (m : Q) : list Row :=
  if has_col d stats
  then filter (fun r => at_least m (get r d)) (rows stats)
  else rows stats.

(** The rows of the result that belong to one award. *)
Definition kept (stats : Table) (award_configs : list Award) (aw : Award)
  : list AwardScore :=
  filter (fun a => String.eqb (as_award_id a) (award_id aw))
         (compute_award_scores stats award_configs).

Lemma attempt_cols_truthy m d :
  assoc m attempt_cols = Some d -> truthy d = true.
Proof.
  unfold attempt_cols. cbn [assoc].
  repeat match goal with
         | |- context [String.eqb m ?c] =>
             destruct (String.eqb m c);
             [intros H; inversion H; reflexivity|]
         end.
  discriminate.
Qed.

Lemma configured_min_attempts aw :
  In aw AWARDS ->
  exists d m, assoc (metric aw) attempt_cols = Some d /\
              min_attempts aw = Some m.
Proof.
  intros H. unfold AWARDS in H.
  repeat (destruct H as [<-|H]; [eexists; eexists; split; reflexivity|]).
  destruct H.
Qed.

Lemma award_ids_distinct : NoDup (map award_id AWARDS).
Proof.
  unfold AWARDS. cbn [map award_id].
  repeat (constructor;
          [cbn [In]; intros H;
           repeat (destruct H as [H|H]; [discriminate H|]); exact H|]).
  constructor.
Qed.

Lemma award_scores_ids stats aw a :
  In a (award_scores stats aw) -> as_award_id a = award_id aw.
Proof.
  unfold award_scores. destruct (negb _); [intros []|].
  destruct (_ =? _)%nat; [intros []|].
  intros H. apply in_map_iff in H. destruct H as [r [<- _]]. reflexivity.
Qed.

Lemma filter_all {A} (p : A -> bool) l :
  (forall x, In x l -> p x = true) -> filter p l = l.
Proof.
  induction l as [|x l IH]; intros H; [reflexivity|].
  simpl. rewrite (H x (or_introl eq_refl)), IH; [reflexivity|].
  intros y Hy. apply H. right. exact Hy.
Qed.

Lemma filter_nothing {A} (p : A -> bool) l :
  (forall x, In x l -> p x = false) -> filter p l = [].
Proof.
  induction l as [|x l IH]; intros H; [reflexivity|].
  simpl. rewrite (H x (or_introl eq_refl)). apply IH.
  intros y Hy. apply H. right. exact Hy.
Qed.

(** The rows of one award in the concatenated result are the frame the
    loop built for that award. *)
Lemma kept_is_the_frame stats award_configs aw :
  NoDup (map award_id award_configs) -> In aw award_configs ->
  kept stats award_configs aw = award_scores stats aw.
Proof.
  unfold kept, compute_award_scores.
  induction award_configs as [|c cs IH]; intros N H; [destruct H|].
  inversion N as [|? ? Nc N']; subst.
  cbn [flat_map]. rewrite filter_app.
  destruct H as [->|H].
  - rewrite filter_all
      by (intros a Ha; rewrite (award_scores_ids stats aw a Ha);
          apply String.eqb_refl).
    rewrite filter_nothing; [apply app_nil_r|].
    intros a Ha. apply in_flat_map in Ha. destruct Ha as [c' [Hc' Ha]].
    rewrite (award_scores_ids stats c' a Ha).
    apply String.eqb_neq. intros E. apply Nc. rewrite <- E.
    apply in_map, Hc'.
  - rewrite filter_nothing; [exact (IH N' H)|].
    intros a Ha. rewrite (award_scores_ids stats c a Ha).
    apply String.eqb_neq. intros E. apply Nc. rewrite E.
    apply in_map, H.
Qed.

Lemma ge_at_least c m : ge c m = at_least m c.
Proof. destruct c as [[q| |]|]; reflexivity. Qed.

Lemma filtered_qualifying stats aw d m :
  assoc (metric aw) attempt_cols = Some d -> min_attempts aw = Some m ->
  filtered stats aw = qualifying stats d m.
Proof.
  intros Hd Hm. unfold filtered, qualifying, threshold.
  rewrite Hd, Hm, (attempt_cols_truthy _ _ Hd). cbn [andb].
  destruct (has_col d stats); [|reflexivity].
  apply filter_ext. intros r. apply ge_at_least.
Qed.

(** The aggregate table of the synthetic log, before calculate_metrics:
    it has the column tackle_attempt but no column tackle_fail_rate. *)
Definition tackle_counts : Table :=
  Aggregate.aggregate_player_stats tackle_log.

(** C7, as stated, fails: in a stats table without the metric column the
    award is skipped and nobody is kept, although X and Z have 5 tackle
    attempts. *)
Lemma award_without_metric_column_keeps_nobody :
  ~ (forall stats aw d m,
        In aw AWARDS ->
        assoc (metric aw) attempt_cols = Some d ->
        min_attempts aw = Some m ->
        map as_key (kept stats AWARDS aw) = map key (qualifying stats d m)).
Proof.
  intros H.
  specialize (H tackle_counts tackle_award "tackle_attempt" 5%Q).
  assert (A : In tackle_award AWARDS) by (left; reflexivity).
  specialize (H A eq_refl eq_refl). vm_compute in H. discriminate H.
Qed.

(** C7, amended.  Every configured award has a denominator column and a
    min_attempts.  For a configured award whose metric is a column of
    the stats table, the rows compute_award_scores returns for the award
    are, in the order of the table, the players whose value in the
    denominator column is greater than or equal to min_attempts (every
    player when the table has no such column), and the score is the
    metric with NaN read as 0; a player is kept exactly when the
    denominator value q satisfies min_attempts <= q.  For an award whose
    metric is not a column of the table nobody is kept.  On the synthetic
    log, X (5 tackles, 2 failed) is kept with score 2/5 = 0.4 and Y (3
    tackles) is not. *)
Theorem min_attempts_filter :
  (forall aw, In aw AWARDS ->
              exists d m, assoc (metric aw) attempt_cols = Some d /\
                          min_attempts aw = Some m) /\
  (forall stats aw d m,
      In aw AWARDS ->
      assoc (metric aw) attempt_cols = Some d ->
      min_attempts aw = Some m ->
      (has_col (metric aw) stats = true ->
       map as_key (kept stats AWARDS aw) = map key (qualifying stats d m) /\
       map score (kept stats AWARDS aw)
       = map (fun r => fillna (Fin 0) (get r (metric aw)))
             (qualifying stats d m) /\
       (has_col d stats = true ->
        forall r q, In r (rows stats) -> get r d = of_Q q ->
                    (In r (qualifying stats d m) <-> (m <= q)%Q))) /\
      (has_col (metric aw) stats = false -> kept stats AWARDS aw = [])) /\
  (In tackle_award AWARDS /\
   map (fun a => (k_player_name_ko (as_key a), score a))
       (kept tackle_stats AWARDS tackle_award)
   = [("X", Fin (2 # 5)); ("Z", Fin (1 # 5))] /\
   map (fun a => (k_player_name_ko (as_key a), score a))
       (compute_award_scores tackle_stats [tackle_award])
   = [("X", Fin (2 # 5)); ("Z", Fin (1 # 5))] /\
   (2 # 5 == 0.4)%Q /\
   map (fun r => (k_player_name_ko (key r), get r "tackle_attempt"))
       (rows tackle_stats)
   = [("X", of_nat 5); ("Y", of_nat 3); ("Z", of_nat 5)]).
Proof.
  split; [exact configured_min_attempts|]. split.
  - intros stats aw d m Haw Hd Hm.
    rewrite (kept_is_the_frame stats AWARDS aw award_ids_distinct Haw).
    split.
    + intros Hc.
      rewrite (award_scores_rows stats aw Hc), !map_map.
      rewrite (filtered_qualifying stats aw d m Hd Hm).
      split; [reflexivity|]. split; [reflexivity|].
      intros Hcd r q Hr Gq. unfold qualifying. rewrite Hcd.
      rewrite filter_In, Gq. cbn [at_least of_Q].
      rewrite Qle_bool_iff. tauto.
    + intros Hc. apply award_scores_skipped, Hc.
  - split; [left; reflexivity|]. vm_compute. repeat split; reflexivity.
Qed.

Lemma min_attempts_filter_witness :
  In tackle_award AWARDS /\
  assoc (metric tackle_award) attempt_cols = Some "tackle_attempt" /\
  min_attempts tackle_award = Some 5%Q /\
  has_col (metric tackle_award) tackle_stats = true /\
  map as_key (kept tackle_stats AWARDS tackle_award)
  = map key (qualifying tackle_stats "tackle_attempt" 5) /\
  map (fun r => k_player_name_ko (key r))
      (qualifying tackle_stats "tackle_attempt" 5) = ["X"; "Z"].
Proof.
  assert (A : In tackle_award AWARDS) by (left; reflexivity).
  assert (B : assoc (metric tackle_award) attempt_cols = Some "tackle_attempt")
    by reflexivity.
  assert (C : min_attempts tackle_award = Some 5%Q) by reflexivity.
  assert (D : has_col (metric tackle_award) tackle_stats = true)
    by (vm_compute; reflexivity).
  split; [exact A|]. split; [exact B|]. split; [exact C|].
  split; [exact D|].
  split; [|vm_compute; reflexivity].
  exact (proj1 (proj1 (proj1 (proj2 min_attempts_filter)
                         tackle_stats tackle_award _ _ A B C) D)).
Defined.

(** ** Ranks and percentiles *)

Definition strictly_below (scores : list num) (s : num) : nat :=
  count (fun y => negb (num_leb s y)) scores.
Definition strictly_above (scores : list num) (s : num) : nat :=
  count (fun y => negb (num_leb y s)) scores.
Definition tied_with (scores : list num) (s : num) : nat :=
  count (tied num_leb s) scores.
Definition at_or_below (scores : list num) (s : num) : nat :=
  count (fun y => num_leb y s) scores.

Lemma below_tied_le_length scores s :
  (strictly_below scores s + tied_with scores s <= List.length scores)%nat.
Proof.
  unfold strictly_below, tied_with.
  rewrite <- (count_le_split num_leb num_leb_total).
  apply count_le_length.
Qed.

(** Two players with the same tackle fail rate. *)
Definition tied_stats : Table :=
  mkTable ["tackle_attempt"; "tackle_fail_rate"]
    [mkRow (mkKey 1 "X" "Ulsan")
           [("tackle_attempt", of_nat 6); ("tackle_fail_rate", of_Q 0.5)];
     mkRow (mkKey 2 "Y" "Ulsan")
           [("tackle_attempt", of_nat 8); ("tackle_fail_rate", of_Q 0.5)]].

Example tied_percentiles :
  map (fun a => (rank a, Qred (percentile a)))
      (award_scores tied_stats tackle_award)
  = [(1%nat, 75%Q); (1%nat, 75%Q)].
Proof. vm_compute. reflexivity. Qed.

(** C5, as stated, fails: with two tied players the fraction of the
    population at or below the shared score is 2/2, i.e. 100, but the
    reported percentile of both is 75. *)
Lemma percentile_of_ties_is_not_fraction_at_or_below :
  ~ (forall stats aw a,
        In a (award_scores stats aw) ->
        (percentile a
         == nq (at_or_below (map score (award_scores stats aw)) (score a))
            / nq (List.length (award_scores stats aw)) * 100)%Q).
Proof.
  intros H.
  specialize (H tied_stats tackle_award
                (mkAwardScore "tackle_fail" (mkKey 1 "X" "Ulsan")
                              (Fin 0.5) 1 (300 # 4))).
  assert (I : In (mkAwardScore "tackle_fail" (mkKey 1 "X" "Ulsan")
                               (Fin 0.5) 1 (300 # 4))
                 (award_scores tied_stats tackle_award))
    by (left; vm_compute; reflexivity).
  specialize (H I). vm_compute in H. discriminate H.
Qed.

(** The percentile of a row, by counting. *)
Lemma percentile_by_counting stats aw a :
  In a (award_scores stats aw) ->
  let scores := map score (award_scores stats aw) in
  (percentile a
   == (nq (strictly_below scores (score a))
       + (nq (tied_with scores (score a)) + 1) / 2)
      / nq (List.length (award_scores stats aw)) * 100)%Q.
Proof.
  intros H scores.
  destruct (award_scores_self stats aw a H) as [Hs [_ Hp]].
  fold scores in Hs, Hp. rewrite Hp.
  rewrite (rank_average_asc num_leb num_leb_total num_leb_trans
             scores (score a) Hs).
  reflexivity.
Qed.

(** C5, amended.  The percentile is the average-method rank divided by
    the population size, times 100: with L players strictly below the
    score and E players at the score (the player included), it is
    100 * (L + (E + 1) / 2) / N.  For a player whose score no other
    surviving player shares (E = 1) this is the fraction of the
    population at or below the score, times 100. *)
Theorem percentile_is_average_rank :
  forall stats aw a,
    In a (award_scores stats aw) ->
    let scores := map score (award_scores stats aw) in
    let N := List.length (award_scores stats aw) in
    (percentile a
     == (nq (strictly_below scores (score a))
         + (nq (tied_with scores (score a)) + 1) / 2) / nq N * 100)%Q /\
    (tied_with scores (score a) = 1%nat ->
     (percentile a == nq (at_or_below scores (score a)) / nq N * 100)%Q).
Proof.
  intros stats aw a H scores N.
  pose proof (percentile_by_counting stats aw a H) as P.
  cbv zeta in P. fold scores in P. fold N in P.
  split; [exact P|].
  intros E1. rewrite P. unfold at_or_below.
  rewrite (count_le_split num_leb num_leb_total).
  fold (strictly_below scores (score a)). fold (tied_with scores (score a)).
  rewrite E1, nq_add. change (nq 1) with 1%Q.
  assert (X : ((1 + 1) / 2 == 1)%Q) by reflexivity.
  rewrite X. reflexivity.
Qed.

Lemma percentile_is_average_rank_witness :
  let a := mkAwardScore "tackle_fail" (mkKey 1 "X" "Ulsan")
                        (Fin 0.5) 1 (300 # 4) in
  let scores := map score (award_scores tied_stats tackle_award) in
  let N := List.length (award_scores tied_stats tackle_award) in
  In a (award_scores tied_stats tackle_award) /\
  (percentile a
   == (nq (strictly_below scores (score a))
       + (nq (tied_with scores (score a)) + 1) / 2) / nq N * 100)%Q /\
  (tied_with scores (score a) = 1%nat ->
   (percentile a == nq (at_or_below scores (score a)) / nq N * 100)%Q).
Proof.
  assert (I : In (mkAwardScore "tackle_fail" (mkKey 1 "X" "Ulsan")
                               (Fin 0.5) 1 (300 # 4))
                 (award_scores tied_stats tackle_award))
    by (left; vm_compute; reflexivity).
  split; [exact I|].
  exact (percentile_is_average_rank tied_stats tackle_award _ I).
Defined.

(** C6.  Within the frame of an award with N rows: each rank is the
    competition rank 1 + (number of strictly greater scores), it lies in
    1..N, a score at least as high never gets a larger rank number (so
    tied scores share their rank), a score that no other exceeds has rank
    1, and each percentile lies in [0, 100]. *)
Theorem ranks_are_competition_ranks :
  forall stats aw a,
    In a (award_scores stats aw) ->
    let out := award_scores stats aw in
    let scores := map score out in
    let N := List.length out in
    rank a = (1 + strictly_above scores (score a))%nat /\
    (1 <= rank a <= N)%nat /\
    (forall b, In b out -> num_leb (score a) (score b) = true ->
               (rank b <= rank a)%nat) /\
    (forall b, In b out -> tied num_leb (score a) (score b) = true ->
               rank b = rank a) /\
    ((forall b, In b out -> num_leb (score b) (score a) = true) ->
     rank a = 1%nat) /\
    (0 <= percentile a <= 100)%Q.
Proof.
  intros stats aw a H out scores N.
  assert (R : forall b, In b out ->
                        rank b = (1 + strictly_above scores (score b))%nat).
  { intros b Hb. destruct (award_scores_self stats aw b Hb) as [Hs [Hr _]].
    rewrite Hr.
    apply (rank_min_desc num_leb num_leb_total num_leb_trans). exact Hs. }
  assert (Mono : forall b, In b out ->
                 num_leb (score a) (score b) = true -> (rank b <= rank a)%nat).
  { intros b Hb L. rewrite (R a H), (R b Hb).
    apply le_n_S. apply count_mono. intros y _ Hy.
    destruct (num_leb y (score a)) eqn:E; [|reflexivity].
    rewrite (num_leb_trans y (score a) (score b) E L) in Hy. discriminate. }
  split; [exact (R a H)|].
  split.
  { rewrite (R a H). split; [lia|].
    assert (X : (strictly_above scores (score a) < List.length scores)%nat).
    { apply (count_lt_length _ scores (score a)); [apply in_map, H|].
      rewrite num_leb_refl. reflexivity. }
    unfold N, scores in *. rewrite length_map in X. lia. }
  split; [exact Mono|].
  split.
  { intros b Hb T. unfold tied in T. apply andb_true_iff in T.
    destruct T as [T1 T2].
    apply Nat.le_antisymm.
    - apply (Mono b Hb T1).
    - rewrite (R a H), (R b Hb). apply le_n_S. apply count_mono.
      intros y _ Hy. destruct (num_leb y (score b)) eqn:E; [|reflexivity].
      rewrite (num_leb_trans y (score b) (score a) E T2) in Hy.
      discriminate. }
  split.
  { intros Top. rewrite (R a H).
    assert (Z0 : strictly_above scores (score a) = 0%nat).
    { apply count_zero_iff. intros y Hy. unfold scores in Hy.
      apply in_map_iff in Hy. destruct Hy as [b [<- Hb]].
      rewrite (Top b Hb). reflexivity. }
    rewrite Z0. reflexivity. }
  pose proof (percentile_by_counting stats aw a H) as P.
  cbv zeta in P. fold out in P. fold scores in P. fold N in P.
  pose proof (below_tied_le_length scores (score a)) as B.
  assert (E1 : (1 <= tied_with scores (score a))%nat)
    by (apply (tied_self_counts num_leb num_leb_total), in_map, H).
  assert (LN : List.length scores = N)
    by (unfold scores, N; apply length_map).
  rewrite LN in B.
  assert (Npos : (0 < N)%nat) by lia.
  pose proof (nq_pos N Npos) as QN.
  pose proof (nq_nonneg (strictly_below scores (score a))) as QL.
  pose proof (nq_le 1 _ E1) as QE. change (nq 1) with 1%Q in QE.
  pose proof (nq_le _ _ B) as QB. rewrite nq_add in QB.
  set (l := nq (strictly_below scores (score a))) in *.
  set (e := nq (tied_with scores (score a))) in *.
  set (n := nq N) in *.
  clearbody l e n.
  rewrite P.
  assert (Hh : ((e + 1) / 2 == (1 # 2) * e + (1 # 2))%Q) by field.
  assert (Q0 : (0 <= (l + (e + 1) / 2) / n)%Q).
  { apply Qle_shift_div_l; [exact QN|]. rewrite Hh. lra. }
  assert (Q1 : ((l + (e + 1) / 2) / n <= 1)%Q).
  { apply Qle_shift_div_r; [exact QN|]. rewrite Hh. lra. }
  set (v := ((l + (e + 1) / 2) / n)%Q) in *. clearbody v.
  split; lra.
Qed.

Lemma ranks_are_competition_ranks_witness :
  let a := mkAwardScore "tackle_fail" (mkKey 1 "X" "Ulsan")
                        (Fin 0.5) 1 (300 # 4) in
  let out := award_scores tied_stats tackle_award in
  let scores := map score out in
  let N := List.length out in
  In a out /\
  rank a = (1 + strictly_above scores (score a))%nat /\
  (1 <= rank a <= N)%nat /\
  (forall b, In b out -> num_leb (score a) (score b) = true ->
             (rank b <= rank a)%nat) /\
  (forall b, In b out -> tied num_leb (score a) (score b) = true ->
             rank b = rank a) /\
  ((forall b, In b out -> num_leb (score b) (score a) = true) ->
   rank a = 1%nat) /\
  (0 <= percentile a <= 100)%Q.
Proof.
  assert (I : In (mkAwardScore "tackle_fail" (mkKey 1 "X" "Ulsan")
                               (Fin 0.5) 1 (300 # 4))
                 (award_scores tied_stats tackle_award))
    by (left; vm_compute; reflexivity).
  split; [exact I|].
  exact (ranks_are_competition_ranks tied_stats tackle_award _ I).
Defined.

(** ** The zero guard *)

(** The metric cell [m] of a row is guarded by the denominator cell [d]:
    it is 0 unless the denominator is present and positive. *)
Definition guarded (m d : string) (r : Row) : Prop :=
  exists v, assoc m (cells r) = Some v /\
            (v = of_Q 0 \/
             exists w, assoc d (cells r) = Some (Some w) /\
                       num_ltb (Fin 0) w = true).

Definition all_guarded (m d : string) (t : Table) : Prop :=
  forall r, In r (rows t) -> guarded m d r.

(** None of [names] is the metric or its denominator. *)
Definition fresh (names : list string) (m d : string) : bool :=
  forallb (fun c => negb (String.eqb c m) && negb (String.eqb c d)) names.

Lemma fresh_In names m d c :
  fresh names m d = true -> In c names -> c <> m /\ c <> d.
Proof.
  unfold fresh. rewrite forallb_forall. intros F H.
  specialize (F c H). apply andb_true_iff in F. destruct F as [F1 F2].
  apply negb_true_iff in F1, F2. apply String.eqb_neq in F1, F2. auto.
Qed.

Lemma is_zero_not_positive c : is_zero c -> gt c 0 = false.
Proof.
  destruct c as [[q| |]|]; simpl; try tauto. intros Z.
  unfold num_ltb; simpl. apply negb_false_iff, Qle_bool_iff.
  rewrite Z. apply Qle_refl.
Qed.

(** What the guard gives: a denominator that is not positive (zero, or
    missing) goes with a metric that is exactly 0. *)
Lemma guarded_zero m d r :
  guarded m d r -> gt (get r d) 0 = false -> get r m = of_Q 0.
Proof.
  intros [v [Hv [->|[w [Hw Pw]]]]] Z; unfold get in *.
  - rewrite Hv. reflexivity.
  - rewrite Hw in Z. simpl in Z. congruence.
Qed.

Lemma guarded_assign_ratio m n d t :
  m <> d -> all_guarded m d (assign m (ratio n d) t).
Proof.
  intros N r' H. unfold assign in H; simpl in H.
  apply in_map_iff in H. destruct H as [r [<- _]].
  exists (ratio n d r). simpl. rewrite assoc_set_same.
  split; [reflexivity|].
  unfold ratio, np_where.
  destruct (gt (get r d) 0) eqn:G; [right | left; reflexivity].
  unfold get in G. destruct (assoc d (cells r)) as [[w|]|] eqn:A;
    try discriminate G.
  exists w. rewrite assoc_set_other by congruence. auto.
Qed.

Lemma guarded_assign_other m d name f t :
  name <> m -> name <> d ->
  all_guarded m d t -> all_guarded m d (assign name f t).
Proof.
  intros N1 N2 G r' H. unfold assign in H; simpl in H.
  apply in_map_iff in H. destruct H as [r [<- Hr]].
  destruct (G r Hr) as [v [Hv D]]. exists v. simpl.
  rewrite !assoc_set_other by congruence. auto.
Qed.

Lemma guarded_fillna_den m d t :
  m <> d -> all_guarded m d t -> all_guarded m d (fillna_col d t).
Proof.
  intros N G r' H. unfold fillna_col, assign in H; simpl in H.
  apply in_map_iff in H. destruct H as [r [<- Hr]].
  destruct (G r Hr) as [v [Hv D]]. exists v. simpl.
  rewrite assoc_set_other by congruence. split; [exact Hv|].
  destruct D as [D|[w [Hw Pw]]]; [left; exact D|right].
  exists w. rewrite assoc_set_same. unfold get. rewrite Hw. auto.
Qed.

Lemma merge_left_rows on a b cols r' :
  In r' (rows (merge_left_on on a b cols)) ->
  exists r extra, In r (rows a) /\ r' = mkRow (key r) (cells r ++ extra).
Proof.
  unfold merge_left_on; simpl. intros H. apply in_flat_map in H.
  destruct H as [r [Hr H]]. exists r.
  destruct (filter (fun s => on (key s) (key r)) (rows b)) as [|s0 ms].
  - destruct H as [<-|[]]. eauto.
  - change (In r' (map (fun s => mkRow (key r)
                          (cells r ++ map (fun c => (c, get s c)) cols))
                       (s0 :: ms))) in H.
    apply in_map_iff in H. destruct H as [s [<- _]]. eauto.
Qed.

Lemma guarded_merge_left m d on t b cols :
  all_guarded m d t -> all_guarded m d (merge_left_on on t b cols).
Proof.
  intros G r' H. apply merge_left_rows in H.
  destruct H as [r [extra [Hr ->]]].
  destruct (G r Hr) as [v [Hv D]]. exists v. simpl.
  rewrite !assoc_app, Hv. split; [reflexivity|].
  destruct D as [D|[w [Hw Pw]]]; [left; exact D|right].
  exists w. rewrite Hw. auto.
Qed.

Lemma guarded_fillna_cols m d cols : forall t,
  (forall c, In c cols -> c <> m /\ c <> d) ->
  all_guarded m d t ->
  all_guarded m d (fold_left (fun s col => fillna_col col s) cols t).
Proof.
  induction cols as [|c cols IH]; intros t F G; [exact G|].
  simpl. apply IH; [intros; apply F; right; assumption|].
  destruct (F c (or_introl eq_refl)) as [N1 N2].
  apply guarded_assign_other; assumption.
Qed.

Lemma guarded_second_half_drop m d shd t :
  fresh ["second_half_drop"] m d = true ->
  all_guarded m d t -> all_guarded m d (with_second_half_drop shd t).
Proof.
  intros F G. unfold with_second_half_drop.
  destruct (given shd); [|exact G].
  destruct (fresh_In _ m d "second_half_drop" F (or_introl eq_refl)).
  apply guarded_assign_other; try assumption.
  apply guarded_merge_left, G.
Qed.

Lemma guarded_def_third_turnover m d dtt t :
  fresh ["def_third_turnover_rate"] m d = true ->
  all_guarded m d t -> all_guarded m d (with_def_third_turnover dtt t).
Proof.
  intros F G. unfold with_def_third_turnover.
  destruct (given dtt); [|exact G].
  destruct (fresh_In _ m d "def_third_turnover_rate" F (or_introl eq_refl)).
  apply guarded_assign_other; try assumption.
  apply guarded_merge_left, G.
Qed.

Lemma guarded_attack_stats m d atk t :
  fresh attack_cols m d = true ->
  all_guarded m d t -> all_guarded m d (with_attack_stats atk t).
Proof.
  intros F G. unfold with_attack_stats.
  destruct (given atk) as [a|]; [|exact G].
  apply guarded_fillna_cols; [|apply guarded_merge_left, G].
  intros c Hc. apply filter_In in Hc. destruct Hc as [Hc _].
  exact (fresh_In _ m d c F Hc).
Qed.

Lemma guarded_clearance_panic m d cp t :
  fresh ["clearance_panic_rate"; "clearance"; "concede_shot10"] m d = true ->
  all_guarded m d t -> all_guarded m d (with_clearance_panic cp t).
Proof.
  intros F G. unfold with_clearance_panic.
  destruct (given cp); [|exact G].
  destruct (fresh_In _ m d "clearance_panic_rate" F (or_introl eq_refl)).
  destruct (fresh_In _ m d "clearance" F (or_intror (or_introl eq_refl))).
  destruct (fresh_In _ m d "concede_shot10" F
              (or_intror (or_intror (or_introl eq_refl)))).
  repeat (apply guarded_assign_other; try assumption).
  apply guarded_merge_left, G.
Qed.

(** ** The six ratio blocks of calculate_metrics *)

Definition ratio_metrics : list (string * string * string) :=
  [("tackle_fail_rate", "tackle_fail", "tackle_attempt");
   ("card_per_def", "card_count", "def_actions");
   ("danger_foul_ratio", "danger_foul_count", "foul_count");
   ("block_fail_rate", "block_fail", "block_attempt");
   ("interception_fail_rate", "interception_fail", "interception_attempt");
   ("duel_fail_rate", "duel_fail", "duel_attempt")].

Definition ratio_step (stats : Table) (e : string * string * string) : Table :=
  add_ratio (fst (fst e)) (snd (fst e)) (snd e) stats.

Lemma calculate_metrics_blocks ps cp shd dtt atk :
  calculate_metrics ps cp shd dtt atk
  = with_attack_stats atk
      (with_def_third_turnover dtt
         (with_second_half_drop shd
            (with_clearance_panic cp
               (fold_left ratio_step ratio_metrics ps)))).
Proof. reflexivity. Qed.

Lemma has_col_assign c name f t :
  has_col c (assign name f t) = has_col c t || String.eqb c name.
Proof.
  unfold assign, has_col. cbn [columns].
  destruct (isin name (columns t)) eqn:E; cbn [columns].
  - destruct (String.eqb_spec c name) as [->|_].
    + rewrite E. reflexivity.
    + rewrite orb_false_r. reflexivity.
  - unfold isin. rewrite existsb_app. simpl. rewrite orb_false_r.
    reflexivity.
Qed.

Lemma has_col_ratio_step c stats e :
  has_col c stats = true -> has_col c (ratio_step stats e) = true.
Proof.
  intros H. unfold ratio_step, add_ratio.
  destruct (_ && _); [|exact H]. rewrite has_col_assign, H. reflexivity.
Qed.

Lemma guarded_ratio_blocks m n d :
  m <> d -> forall l stats,
  (forall e, In e l ->
             fst (fst e) <> d /\ (fst (fst e) = m -> e = (m, n, d))) ->
  has_col d stats = true -> has_col n stats = true ->
  all_guarded m d stats \/ In (m, n, d) l ->
  all_guarded m d (fold_left ratio_step l stats).
Proof.
  intros Nmd. induction l as [|e l IH]; intros stats Side Hd Hn H.
  - destruct H as [G|[]]. exact G.
  - simpl. destruct (Side e (or_introl eq_refl)) as [S1 S2].
    apply IH;
      [intros; apply Side; right; assumption
      | apply has_col_ratio_step, Hd | apply has_col_ratio_step, Hn |].
    destruct (string_dec (fst (fst e)) m) as [E|E].
    + left. rewrite (S2 E). unfold ratio_step, add_ratio. simpl.
      rewrite Hd, Hn. simpl. apply guarded_assign_ratio, Nmd.
    + destruct H as [G|[->|H]]; [left | contradiction E; reflexivity
                                | right; exact H].
      unfold ratio_step, add_ratio. destruct (_ && _); [|exact G].
      apply guarded_assign_other; assumption.
Qed.

Lemma ratio_metrics_side m n d :
  In (m, n, d) ratio_metrics ->
  m <> d /\
  (forall e, In e ratio_metrics ->
             fst (fst e) <> d /\ (fst (fst e) = m -> e = (m, n, d))) /\
  fresh (["clearance_panic_rate"; "clearance"; "concede_shot10";
          "second_half_drop"; "def_third_turnover_rate"] ++ attack_cols)
        m d = true.
Proof.
  intros H. unfold ratio_metrics in H.
  repeat (destruct H as [H|H];
          [inversion H; subst; clear H;
           split; [discriminate|];
           split; [|reflexivity];
           intros e He; unfold ratio_metrics in He;
           repeat (destruct He as [<-|He];
                   [split; [discriminate | intros E; try discriminate E;
                                           reflexivity]|]);
           destruct He|]).
  destruct H.
Qed.

Lemma fresh_app l1 l2 m d :
  fresh (l1 ++ l2) m d = fresh l1 m d && fresh l2 m d.
Proof. unfold fresh. apply forallb_app. Qed.

(** ** receive_to_give_ratio in aggregate_attack_stats *)

Lemma guarded_per_game m d name num t :
  name <> m -> name <> d ->
  all_guarded m d t -> all_guarded m d (AttackStats.per_game name num t).
Proof.
  intros N1 N2 G. unfold AttackStats.per_game.
  destruct (_ && _); [|exact G]. apply guarded_assign_other; assumption.
Qed.

Lemma has_col_per_game c name num t :
  c <> name ->
  has_col c (AttackStats.per_game name num t) = has_col c t.
Proof.
  intros N. unfold AttackStats.per_game.
  destruct (_ && _); [|reflexivity].
  rewrite has_col_assign.
  destruct (String.eqb_spec c name); [contradiction | apply orb_false_r].
Qed.

Lemma attack_stats_guarded df :
  has_col "pass_received" (AttackStats.aggregate_attack_stats df) = true ->
  has_col "pass_given" (AttackStats.aggregate_attack_stats df) = true ->
  all_guarded "receive_to_give_ratio" "pass_given"
              (AttackStats.aggregate_attack_stats df).
Proof.
  unfold AttackStats.aggregate_attack_stats.
  destruct (AttackStats.attack_results df) as [|r0 rs];
    [intros H; discriminate H|].
  cbv zeta.
  set (t := AttackStats.per_game "offside_per_game" "offsides" _).
  intros H1 H2.
  rewrite !has_col_per_game in H1, H2 by discriminate.
  repeat (apply guarded_per_game; [discriminate | discriminate |]).
  unfold AttackStats.receive_to_give in *.
  destruct (has_col "pass_received" t && has_col "pass_given" t) eqn:C.
  - apply (guarded_assign_ratio "receive_to_give_ratio" "pass_received"
             "pass_given" t). discriminate.
  - rewrite H1, H2 in C. discriminate C.
Qed.

(** C4.  For each of the six ratio metrics of calculate_metrics whose
    numerator and denominator are columns of the aggregate table, for
    clearance_panic_rate when a non-empty clearance-panic table is given,
    and for receive_to_give_ratio of aggregate_attack_stats when both pass
    columns exist: in every row whose denominator cell is 0 the metric
    cell holds the number 0, a finite value and not NaN.  (The function is
    total: no input raises.) *)
Theorem zero_denominator_gives_zero_metric :
  (forall ps cp shd dtt atk m n d r,
      In (m, n, d) ratio_metrics ->
      has_col d ps = true -> has_col n ps = true ->
      In r (rows (calculate_metrics ps cp shd dtt atk)) ->
      is_zero (get r d) -> get r m = of_Q 0) /\
  (forall ps cp shd dtt atk t r,
      given cp = Some t ->
      In r (rows (calculate_metrics ps cp shd dtt atk)) ->
      is_zero (get r "clearance") ->
      get r "clearance_panic_rate" = of_Q 0) /\
  (forall df r,
      has_col "pass_received" (AttackStats.aggregate_attack_stats df) = true ->
      has_col "pass_given" (AttackStats.aggregate_attack_stats df) = true ->
      In r (rows (AttackStats.aggregate_attack_stats df)) ->
      is_zero (get r "pass_given") ->
      get r "receive_to_give_ratio" = of_Q 0).
Proof.
  split; [|split].
  - intros ps cp shd dtt atk m n d r Hm Hd Hn Hr Z.
    destruct (ratio_metrics_side m n d Hm) as [Nmd [Side F]].
    apply (guarded_zero m d r); [|apply is_zero_not_positive, Z].
    rewrite calculate_metrics_blocks in Hr. revert r Hr Z.
    rewrite !fresh_app in F. simpl app in F.
    change ["clearance_panic_rate"; "clearance"; "concede_shot10";
            "second_half_drop"; "def_third_turnover_rate"]
      with (["clearance_panic_rate"; "clearance"; "concede_shot10"]
              ++ ["second_half_drop"] ++ ["def_third_turnover_rate"]) in F.
    rewrite !fresh_app in F.
    apply andb_true_iff in F. destruct F as [F Fa].
    apply andb_true_iff in F. destruct F as [Fc F].
    apply andb_true_iff in F. destruct F as [Fs Fd].
    assert (G : all_guarded m d
                  (with_attack_stats atk
                     (with_def_third_turnover dtt
                        (with_second_half_drop shd
                           (with_clearance_panic cp
                              (fold_left ratio_step ratio_metrics ps)))))).
    { apply guarded_attack_stats; [exact Fa|].
      apply guarded_def_third_turnover; [exact Fd|].
      apply guarded_second_half_drop; [exact Fs|].
      apply guarded_clearance_panic; [exact Fc|].
      apply (guarded_ratio_blocks m n d Nmd); auto. }
    intros r Hr _. exact (G r Hr).
  - intros ps cp shd dtt atk t r Hcp Hr Z.
    apply (guarded_zero "clearance_panic_rate" "clearance" r);
      [|apply is_zero_not_positive, Z].
    rewrite calculate_metrics_blocks in Hr. revert r Hr Z.
    assert (G : all_guarded "clearance_panic_rate" "clearance"
                  (with_attack_stats atk
                     (with_def_third_turnover dtt
                        (with_second_half_drop shd
                           (with_clearance_panic cp
                              (fold_left ratio_step ratio_metrics ps)))))).
    { apply guarded_attack_stats; [reflexivity|].
      apply guarded_def_third_turnover; [reflexivity|].
      apply guarded_second_half_drop; [reflexivity|].
      unfold with_clearance_panic. rewrite Hcp.
      apply guarded_assign_other; [discriminate | discriminate |].
      apply guarded_fillna_den; [discriminate|].
      apply guarded_assign_ratio. discriminate. }
    intros r Hr _. exact (G r Hr).
  - intros df r H1 H2 Hr Z.
    apply (guarded_zero "receive_to_give_ratio" "pass_given" r);
      [|apply is_zero_not_positive, Z].
    exact (attack_stats_guarded df H1 H2 r Hr).
Qed.

Definition no_row : Row := mkRow (mkKey 0 "" "") [].

(** Player 9 fouls but never tackles. *)
Definition metrics_without_tackles : Table :=
  calculate_metrics (Aggregate.aggregate_player_stats Aggregate.season_tackle_foul)
                    None None None None.

(** Player 7 clears twice; player 9 tackles once and never clears. *)
Definition clearance_and_tackle_log : list Event :=
  ClearancePanic.late_clearance_log
  ++ [Aggregate.ev 9 "Lee" "Jeonbuk" 2 100 1 30 4 "Tackle" "Successful"].

Definition metrics_with_panic : Table :=
  calculate_metrics
    (Aggregate.aggregate_player_stats clearance_and_tackle_log)
    (Some (ClearancePanic.calculate_clearance_panic clearance_and_tackle_log))
    None None None.

(** X only receives a pass, Z only gives one. *)
Definition pass_log : list Event :=
  [Aggregate.ev 1 "X" "Ulsan" 1 100 1 10 1 "Pass Received" "Successful";
   Aggregate.ev 3 "Z" "Ulsan" 1 100 1 20 2 "Pass" "Successful"].

Lemma zero_denominator_gives_zero_metric_witness :
  (let r := nth 1 (rows metrics_without_tackles) no_row in
   In r (rows metrics_without_tackles) /\
   is_zero (get r "tackle_attempt") /\
   get r "tackle_fail_rate" = of_Q 0) /\
  (let r := nth 0 (rows metrics_with_panic) no_row in
   In r (rows metrics_with_panic) /\
   is_zero (get r "clearance") /\
   get r "clearance_panic_rate" = of_Q 0) /\
  (let r := nth 0 (rows (AttackStats.aggregate_attack_stats pass_log)) no_row in
   In r (rows (AttackStats.aggregate_attack_stats pass_log)) /\
   is_zero (get r "pass_given") /\
   get r "receive_to_give_ratio" = of_Q 0).
Proof.
  destruct zero_denominator_gives_zero_metric as [A [B C]].
  split; [|split].
  - assert (I : In (nth 1 (rows metrics_without_tackles) no_row)
                   (rows metrics_without_tackles))
      by (right; left; vm_compute; reflexivity).
    assert (Z : is_zero (get (nth 1 (rows metrics_without_tackles) no_row)
                             "tackle_attempt")) by (vm_compute; reflexivity).
    split; [exact I|]. split; [exact Z|].
    apply (A (Aggregate.aggregate_player_stats Aggregate.season_tackle_foul)
             None None None None
             "tackle_fail_rate" "tackle_fail" "tackle_attempt");
      [left; reflexivity | reflexivity | reflexivity | exact I | exact Z].
  - assert (I : In (nth 0 (rows metrics_with_panic) no_row)
                   (rows metrics_with_panic))
      by (left; vm_compute; reflexivity).
    assert (Z : is_zero (get (nth 0 (rows metrics_with_panic) no_row)
                             "clearance")) by (vm_compute; reflexivity).
    split; [exact I|]. split; [exact Z|].
    apply (B (Aggregate.aggregate_player_stats clearance_and_tackle_log)
             (Some (ClearancePanic.calculate_clearance_panic
                      clearance_and_tackle_log))
             None None None
             (ClearancePanic.calculate_clearance_panic clearance_and_tackle_log));
      [reflexivity | exact I | exact Z].
  - assert (I : In (nth 0 (rows (AttackStats.aggregate_attack_stats pass_log))
                        no_row)
                   (rows (AttackStats.aggregate_attack_stats pass_log)))
      by (left; vm_compute; reflexivity).
    assert (Z : is_zero (get (nth 0 (rows (AttackStats.aggregate_attack_stats
                                             pass_log)) no_row)
                             "pass_given")) by (vm_compute; reflexivity).
    split; [exact I|]. split; [exact Z|].
    apply (C pass_log); [reflexivity | reflexivity | exact I | exact Z].
Defined.

(** Without the guard the cell would not be 0: 0/0 is NaN and 3/0 is
    infinite. *)
Example unguarded_division :
  div (of_nat 0) (of_nat 0) = nan /\ div (of_nat 3) (of_nat 0) = Some PInf.
Proof. split; reflexivity. Qed.

End AwardsEngine.
